(** * ipproxy: a shallow embedding of the userspace IP proxy

    The development follows the three Go source files of the package:
    - [ipproxy.go]: options, the constructor, the carrier reader
      ([readDownstreamPackets]) and the demultiplexer ([copyToUpstream]);
    - the connection file ([baseConn], [origin], [writeToDownstream]);
    - [tcp.go]: TCP destinations ([onTCP], [startTCPDest], [accept],
      [reapTCP]).

    Go state is threaded explicitly.  Calls into the netstack, the
    logger, the Go scheduler and the clock are recorded as [event]s in a
    trace carried by the state, in program order.  Results that the
    environment decides (what a read, an accept, a dial or an endpoint
    write returns) are supplied as scripts, one entry per call. *)

From Stdlib Require Import ZArith Lia.
From stdpp Require Import base option list strings pretty gmap fin_maps.

Local Open Scope Z_scope.

(** ** Machine integers and durations *)

(** Go's [int64] (and [time.Duration], which is an [int64] counting
    nanoseconds): a [Z] reduced to the signed 64-bit range after each
    arithmetic operation. *)
Definition int64_min : Z := - 2 ^ 63.
Definition int64_max : Z := 2 ^ 63 - 1.

Definition wrap64 (z : Z) : Z := (z + 2 ^ 63) mod 2 ^ 64 - 2 ^ 63.

Definition Nanosecond : Z := 1.
Definition Millisecond : Z := 1000000.
Definition Second : Z := 1000000000.

(** ** Constants of ipproxy.go *)

Definition DefaultMTU : Z := 1500.
Definition DefaultOutboundBufferDepth : Z := 10000.
Definition DefaultIdleTimeout : Z := 65 * Second.
Definition DefaultTCPConnectBacklog : Z := 10.
Definition DefaultStatsInterval : Z := 15 * Second.

Definition IPProtocolICMP : Z := 1.
Definition IPProtocolTCP : Z := 6.
Definition IPProtocolUDP : Z := 17.

(** ** Constants of the connection file *)

Definition nicID : Z := 1.
Definition maxWriteWait : Z := 30 * Millisecond.
Definition tcpipHeaderBytes : Z := 40.

(** ** Options *)

(** A Go function value supplied by the caller is identified by a tag;
    the two defaults that [ApplyDefaults] installs are distinguished
    constructors. *)
Inductive dialTCPFunc :=
  | UserDialTCP (tag : N)
  | NetDialerDialContext.        (* d.DialContext of a fresh net.Dialer *)

Inductive dialUDPFunc :=
  | UserDialUDP (tag : N)
  | NetDialerDialUDP.            (* closure over d.DialContext, cast to *net.UDPConn *)

(** [Opts]: a [None] in a function field is Go's [nil]. *)
Record Opts := mkOpts {
  MTU : Z;
  OutboundBufferDepth : Z;
  IdleTimeout : Z;
  TCPConnectBacklog : Z;
  StatsInterval : Z;
  DialTCP : option dialTCPFunc;
  DialUDP : option dialUDPFunc
}.

(** [&Opts{}]: every field at its zero value. *)
Definition zeroOpts : Opts := mkOpts 0 0 0 0 0 None None.

(** [func (opts *Opts) ApplyDefaults() *Opts].  The receiver is a
    pointer and may be nil ([None]); the result is never nil. *)
Definition ApplyDefaults (opts : option Opts) : Opts :=
  let o := match opts with None => zeroOpts | Some o => o end in
  {| MTU := if MTU o <=? 0 then DefaultMTU else MTU o;
     OutboundBufferDepth :=
       if OutboundBufferDepth o <=? 0 then DefaultOutboundBufferDepth
       else OutboundBufferDepth o;
     IdleTimeout :=
       if IdleTimeout o <=? 0 then DefaultIdleTimeout else IdleTimeout o;
     TCPConnectBacklog :=
       if TCPConnectBacklog o <=? 0 then DefaultTCPConnectBacklog
       else TCPConnectBacklog o;
     StatsInterval :=
       if StatsInterval o <=? 0 then DefaultStatsInterval else StatsInterval o;
     DialTCP :=
       match DialTCP o with
       | None => Some NetDialerDialContext
       | Some f => Some f
       end;
     DialUDP :=
       match DialUDP o with
       | None => Some NetDialerDialUDP
       | Some f => Some f
       end |}.

(** ** Addresses and packets *)

(** Modelled from the spec: the types [addr], [fourtuple] and [ipPacket]
    are not among the sources.  Section 3: an address is an IP and a
    16-bit port, a four-tuple a source and a destination address, a
    packet a protocol number, a four-tuple and the raw bytes.  The
    sources read [addr.ip] (the string handed to [net.ParseIP]),
    [addr.port], [pkt.ft().dst], [pkt.ipProto] and [pkt.raw]. *)
Record addr := Addr { ip : string; port : N }.

#[global] Instance addr_eq_dec : EqDecision addr.
Proof. solve_decision. Defined.

#[global] Instance addr_countable : Countable addr.
Proof.
  refine (inj_countable' (fun a => (ip a, port a))
                         (fun q => Addr (fst q) (snd q)) _).
  intros []; reflexivity.
Defined.

(** Modelled from the spec: [fourtuple] (section 3). *)
Record fourtuple := FourTuple { src : addr; dst : addr }.

#[global] Instance fourtuple_eq_dec : EqDecision fourtuple.
Proof. solve_decision. Defined.

#[global] Instance fourtuple_countable : Countable fourtuple.
Proof.
  refine (inj_countable' (fun t => (src t, dst t))
                         (fun q => FourTuple (fst q) (snd q)) _).
  intros []; reflexivity.
Defined.

(** [tcpip.FullAddress]: NIC, address, port. *)
Record FullAddress := mkFullAddress { fa_nic : N; fa_addr : string; fa_port : N }.

#[global] Instance FullAddress_eq_dec : EqDecision FullAddress.
Proof. solve_decision. Defined.

#[global] Instance FullAddress_countable : Countable FullAddress.
Proof.
  refine (inj_countable' (fun a => (fa_nic a, fa_addr a, fa_port a))
                         (fun q => mkFullAddress (fst (fst q)) (snd (fst q)) (snd q)) _).
  intros []; reflexivity.
Defined.

(** Modelled from the spec: [ipPacket], the classifier's output (section
    3).  [ipProto] is the 8-bit protocol number of the IPv4 header. *)
Record ipPacket := mkPacket { ipProto : Z; ft : fourtuple; raw : list Byte.byte }.

(** ** Errors *)

(** Go [error] values.  [Wrapped fmt e] is what
    [errors.New(fmt, e)] of getlantern/errors builds. *)
Inductive go_error :=
  | io_EOF
  | PlainError (msg : string)
  | Wrapped (fmt : string) (cause : go_error).

(** [*tcpip.Error] values of the netstack. *)
Inductive tcpip_error :=
  | ErrWouldBlock
  | ErrClosedForReceive
  | ErrOther (msg : string).

#[global] Instance tcpip_error_eq_dec : EqDecision tcpip_error.
Proof. solve_decision. Defined.

(** ** Effects *)

Inductive mutex :=
  | tcpConnTrackMx               (* guards p.tcpConnTrack *)
  | connsMx (dest : N).          (* guards dest.conns of one destination *)

#[global] Instance mutex_eq_dec : EqDecision mutex.
Proof. solve_decision. Defined.

(** What a [go] statement starts. *)
Inductive goroutine :=
  | GoAccept (dest : N)                (* go dest.accept() *)
  | GoConnClose (conn : N)             (* go conn.Close() *)
  | GoCopyToUpstream (conn : N)        (* go tcpConn.copyToUpstream(nil) *)
  | GoCopyFromUpstream (conn : N)      (* go tcpConn.copyFromUpstream(..) *)
  | GoCopyToDownstream (origin : N).   (* go o.copyToDownstream() *)

Inductive level := LevelDebug | LevelError.

(** One entry per call that leaves the function being modelled. *)
Inductive event :=
  | EvLock (m : mutex)
  | EvUnlock (m : mutex)
  | EvAccess (m : mutex)               (* read or write of the map m guards *)
  | EvGo (g : goroutine)
  | EvLog (l : level) (fmt : string)
  | EvSleep (d : Z)                    (* time.Sleep(d) *)
  | EvWaitNotify (conn : N)            (* <-notifyCh *)
  | EvInject (bytes : list Byte.byte)  (* p.channelEndpoint.Inject *)
  | EvInjectICMP (bytes : list Byte.byte)   (* icmpEndpoint.InjectInbound *)
  | EvDialTCP (address : string)       (* opts.DialTCP(ctx, "tcp", address) *)
  | EvCloseBlocking (obj : N)          (* x.Close(), waited for *)
  | EvEventRegister (conn : N)         (* wq.EventRegister *)
  (* the finalization steps *)
  | EvStackClose (origin : N)          (* s.Close() *)
  | EvCallerFinalizer (tag : N)        (* finalizer() / finalizer(o) *)
  | EvDrain (origin : N)               (* channelEndpoint.Drain() *)
  | EvUpstreamClose (up : N)           (* conn.upstream.Close() *)
  | EvEventUnregister (conn : N)       (* conn.wq.EventUnregister(conn.waitEntry) *)
  | EvEndpointClose (endpoint : N)     (* conn.ep.Close() *)
  (* deferred calls of the two long-running loops *)
  | EvWgWait | EvWgDone | EvCloseNow | EvCloseTCP | EvCloseUDP
  | EvICMPStackClose | EvTickerStop.

#[global] Instance goroutine_eq_dec : EqDecision goroutine.
Proof. solve_decision. Defined.

(** ** The closeable primitive *)

Inductive close_state := Open | Closing | Closed.

(** A caller-supplied finalizer [func() error] (or [func(o *origin)
    error]): calling it is an [EvCallerFinalizer] event and yields
    [fin_ret]. *)
Record callerFinalizer := mkCallerFinalizer { fin_tag : N; fin_ret : option go_error }.

(** The function literals of the package that end up in
    [closeable.finalizer], with what each captures. *)
Inductive innerFinalizer :=
  | FinCaller (f : callerFinalizer)
      (* a caller's function handed to newBaseConn as it is *)
  | FinOrigin (origin : N) (f : option callerFinalizer).
      (* the literal of newOrigin: captures s, o, channelEndpoint, finalizer *)

Inductive finalizerFunc :=
  | FinProxy                                (* New: func() error { return nil } *)
  | FinBaseConn (inner : option innerFinalizer).   (* the literal of newBaseConn *)

(** Modelled from the spec: the type [closeable] and its methods are not
    among the sources.  Section 4.11: a three-signal close whose
    finalizer runs between ready-to-finalize and closed; [Close] is
    idempotent and, called again, returns the same terminal result. *)
Record closeable := mkCloseable {
  closeState : close_state;
  finalizer : finalizerFunc;
  closeResult : option go_error
}.

(** An upstream handle ([io.ReadWriteCloser]) with the error its
    [Close] returns. *)
Record upstreamConn := mkUpstream { up_id : N; up_close_err : option go_error }.

(** ** baseConn *)

(** [conn_id] stands for the address of the object; [ep] is nil until
    the owner assigns it. *)
Record baseConn := mkBaseConn {
  conn_id : N;
  lastActive : Z;
  upstream : option upstreamConn;
  ep : option N;
  conn_closeable : closeable
}.

Definition set_ep (e : option N) (c : baseConn) : baseConn :=
  mkBaseConn (conn_id c) (lastActive c) (upstream c) e (conn_closeable c).

Definition set_lastActive (t : Z) (c : baseConn) : baseConn :=
  mkBaseConn (conn_id c) t (upstream c) (ep c) (conn_closeable c).

Definition set_closeable (cl : closeable) (c : baseConn) : baseConn :=
  mkBaseConn (conn_id c) (lastActive c) (upstream c) (ep c) cl.

(** [markActive]: store the clock reading. *)
Definition markActive (now : Z) (c : baseConn) : baseConn := set_lastActive now c.

(** [timeSinceLastActive]: an int64 subtraction. *)
Definition timeSinceLastActive (now : Z) (c : baseConn) : Z :=
  wrap64 (now - lastActive c).

(** [newBaseConn(p, upstream, wq, finalizer)].  [id] is the address of
    the new object and [now] the clock reading of its [markActive].
    The registration with the wait queue is the emitted event. *)
Definition newBaseConn (now : Z) (id : N) (up : option upstreamConn)
    (fin : option innerFinalizer) : baseConn * list event :=
  (markActive now
     (mkBaseConn id 0 up None (mkCloseable Open (FinBaseConn fin) None)),
   [EvEventRegister id]).

(** The body of an inner finalizer. *)
Definition run_callerFinalizer (f : option callerFinalizer)
    : list event * option go_error :=
  match f with
  | None => ([], None)
  | Some f => ([EvCallerFinalizer (fin_tag f)], fin_ret f)
  end.

Definition run_innerFinalizer (f : innerFinalizer) : list event * option go_error :=
  match f with
  | FinCaller f => run_callerFinalizer (Some f)
  | FinOrigin o f =>
      let '(evs, err) := run_callerFinalizer f in
      ([EvStackClose o] ++ evs ++ [EvDrain o], err)
  end.

(** The function literal that [newBaseConn] stores in [conn.finalizer].
    It reads [conn.upstream] and [conn.ep] when it runs. *)
Definition baseConn_finalizer (inner : option innerFinalizer) (conn : baseConn)
    : list event * option go_error :=
  let '(evs1, err) :=
    match inner with
    | None => ([], None)
    | Some f => run_innerFinalizer f
    end in
  let '(evs2, err) :=
    match upstream conn with
    | None => ([], err)
    | Some u =>
        ([EvUpstreamClose (up_id u)],
         match err with None => up_close_err u | Some e => Some e end)
    end in
  (evs1 ++ evs2 ++ [EvEventUnregister (conn_id conn)]
     ++ match ep conn with None => [] | Some e => [EvEndpointClose e] end,
   err).

Definition run_finalizer (conn : baseConn) : list event * option go_error :=
  match finalizer (conn_closeable conn) with
  | FinProxy => ([], None)
  | FinBaseConn inner => baseConn_finalizer inner conn
  end.

(** Modelled from the spec: [Close] of the absent [closeable] (section
    4.11).  The first call runs the finalizer and records its result;
    a later call finds the object closed and returns the recorded
    result. *)
Definition Close (conn : baseConn) : baseConn * list event * option go_error :=
  match closeState (conn_closeable conn) with
  | Closed => (conn, [], closeResult (conn_closeable conn))
  | _ =>
      let '(evs, err) := run_finalizer conn in
      (set_closeable (mkCloseable Closed (finalizer (conn_closeable conn)) err) conn,
       evs, err)
  end.

(** ** origin *)

Record origin := mkOrigin {
  o_base : baseConn;
  o_addr : addr;
  o_clients : gmap FullAddress baseConn
}.

(** [newOrigin(p, addr, upstream, finalizer)].  The stack, the link id
    and the channel endpoint it allocates are identified by the id of
    the origin. *)
Definition newOrigin (now : Z) (id : N) (a : addr) (up : option upstreamConn)
    (fin : option callerFinalizer) : origin * list event :=
  let '(b, evs) := newBaseConn now id up (Some (FinOrigin id fin)) in
  (mkOrigin b a ∅, evs ++ [EvGo (GoCopyToDownstream id)]).

(** ** writeToDownstream: the endpoint write loop *)

(** What one [conn.ep.Write(payload, opts)] returns: the byte count and
    the error.  The count is only looked at when the error is nil. *)
Inductive write_result :=
  | WriteOk (n : Z)
  | WriteErr (e : tcpip_error).

(** Where the loop stands once the scripted write results are used up. *)
Inductive write_outcome :=
  | WReturned (err : option tcpip_error)     (* return nil / return writeErr *)
  | WPanic                                   (* b[n:] with n outside 0..len(b) *)
  | WRunning (b : list Byte.byte) (i : Z).   (* about to call Write again *)

(** [w_delivered]: the bytes the endpoint took, in order; [w_slept]: the
    arguments of the [time.Sleep] calls, in order. *)
Record write_run := mkWriteRun {
  w_outcome : write_outcome;
  w_delivered : list Byte.byte;
  w_slept : list Z
}.

(** The back-off of one iteration: [waitTime := i * 1 * time.Millisecond],
    capped at [maxWriteWait]; [time.Sleep] is only called for a positive
    wait. *)
Definition waitTime (i : Z) : Z :=
  let w := wrap64 (wrap64 (i * 1) * Millisecond) in
  if w >? maxWriteWait then maxWriteWait else w.

Definition backoff (i : Z) : list Z :=
  if waitTime i >? 0 then [waitTime i] else [].

(** The [for i := time.Duration(0); true; i++] loop, from the iteration
    with slice [b] and counter [i].  [continue] and the fall-through at
    the end of the body both run the post statement [i++]. *)
Fixpoint writeLoop (script : list write_result) (b : list Byte.byte) (i : Z)
    : write_run :=
  match script with
  | [] => mkWriteRun (WRunning b i) [] []
  | WriteErr e :: rest =>
      if decide (e = ErrWouldBlock) then
        let r := writeLoop rest b (wrap64 (i + 1)) in
        mkWriteRun (w_outcome r) (w_delivered r) (backoff i ++ w_slept r)
      else mkWriteRun (WReturned (Some e)) [] []
  | WriteOk n :: rest =>
      if (0 <=? n) && (n <=? Z.of_nat (length b)) then
        let b' := drop (Z.to_nat n) b in
        match b' with
        | [] => mkWriteRun (WReturned None) (take (Z.to_nat n) b) []
        | _ :: _ =>
            let r := writeLoop rest b' (wrap64 (i + 1)) in
            mkWriteRun (w_outcome r) (take (Z.to_nat n) b ++ w_delivered r) (w_slept r)
        end
      else mkWriteRun WPanic [] []
  end.

Definition writeToDownstream (script : list write_result) (b : list Byte.byte)
    : write_run :=
  writeLoop script b 0.

(** The schedule in the words of the specification, for comparison:
    the counter counts the attempts since the last successful progress,
    so a write that takes at least one byte starts it again at 0. *)
Fixpoint writeLoop_spec (script : list write_result) (b : list Byte.byte) (i : Z)
    : write_run :=
  match script with
  | [] => mkWriteRun (WRunning b i) [] []
  | WriteErr e :: rest =>
      if decide (e = ErrWouldBlock) then
        let r := writeLoop_spec rest b (i + 1) in
        mkWriteRun (w_outcome r) (w_delivered r)
          ((if 0 <? i then [Z.min (i * Millisecond) maxWriteWait] else []) ++ w_slept r)
      else mkWriteRun (WReturned (Some e)) [] []
  | WriteOk n :: rest =>
      if (0 <=? n) && (n <=? Z.of_nat (length b)) then
        let b' := drop (Z.to_nat n) b in
        match b' with
        | [] => mkWriteRun (WReturned None) (take (Z.to_nat n) b) []
        | _ :: _ =>
            let r := writeLoop_spec rest b' (if 0 <? n then 0 else i + 1) in
            mkWriteRun (w_outcome r) (take (Z.to_nat n) b ++ w_delivered r) (w_slept r)
        end
      else mkWriteRun WPanic [] []
  end.

Definition writeToDownstream_spec (script : list write_result) (b : list Byte.byte)
    : write_run :=
  writeLoop_spec script b 0.

(** "The underlying writes eventually succeed": no write fails with
    anything but WouldBlock, every count lies within the slice offered,
    and the counts add up to the [len] bytes still to be written. *)
Fixpoint completes (script : list write_result) (len : nat) : bool :=
  match script with
  | [] => false
  | WriteErr e :: rest => bool_decide (e = ErrWouldBlock) && completes rest len
  | WriteOk n :: rest =>
      (0 <=? n) && (n <=? Z.of_nat len) &&
      (if Z.to_nat n =? len then true else completes rest (len - Z.to_nat n))%nat
  end.

(** The largest counter for which [i * time.Millisecond] stays inside
    an int64. *)
Definition maxBackoffAttempts : Z := int64_max / Millisecond.

(** ** TCP destinations and the proxy *)

(** [tcpDest]: embeds a [baseConn]; [conns] maps the downstream remote
    address of each accepted flow to its connection. *)
Record tcpDest := mkTcpDest {
  dest_base : baseConn;
  dest_addr : string;
  conns : gmap FullAddress baseConn
}.

Definition dest_id (d : tcpDest) : N := conn_id (dest_base d).

Definition set_conns (m : gmap FullAddress baseConn) (d : tcpDest) : tcpDest :=
  mkTcpDest (dest_base d) (dest_addr d) m.

(** [proxy].  [tcpConnTrack] is the destination map as tcp.go names it
    (the struct of ipproxy.go calls it [tcpOrigins]); [nicSeq] is the
    counter behind [p.nextNICID()]; [trace] collects the effects. *)
Record proxy := mkProxy {
  acceptedPackets : Z;
  rejectedPackets : Z;
  numTcpOrigins : Z;
  numTcpConns : Z;
  numUdpConns : Z;
  opts : Opts;
  pktIn : list ipPacket;
  tcpConnTrack : gmap addr tcpDest;
  udpConns : gmap fourtuple N;
  nicSeq : N;
  p_closeable : closeable;
  trace : list event
}.

Definition set_acceptedPackets (n : Z) (p : proxy) : proxy :=
  mkProxy n (rejectedPackets p) (numTcpOrigins p) (numTcpConns p) (numUdpConns p)
    (opts p) (pktIn p) (tcpConnTrack p) (udpConns p) (nicSeq p) (p_closeable p) (trace p).

Definition set_rejectedPackets (n : Z) (p : proxy) : proxy :=
  mkProxy (acceptedPackets p) n (numTcpOrigins p) (numTcpConns p) (numUdpConns p)
    (opts p) (pktIn p) (tcpConnTrack p) (udpConns p) (nicSeq p) (p_closeable p) (trace p).

Definition set_pktIn (q : list ipPacket) (p : proxy) : proxy :=
  mkProxy (acceptedPackets p) (rejectedPackets p) (numTcpOrigins p) (numTcpConns p)
    (numUdpConns p) (opts p) q (tcpConnTrack p) (udpConns p) (nicSeq p)
    (p_closeable p) (trace p).

Definition set_tcpConnTrack (m : gmap addr tcpDest) (p : proxy) : proxy :=
  mkProxy (acceptedPackets p) (rejectedPackets p) (numTcpOrigins p) (numTcpConns p)
    (numUdpConns p) (opts p) (pktIn p) m (udpConns p) (nicSeq p)
    (p_closeable p) (trace p).

Definition set_nicSeq (n : N) (p : proxy) : proxy :=
  mkProxy (acceptedPackets p) (rejectedPackets p) (numTcpOrigins p) (numTcpConns p)
    (numUdpConns p) (opts p) (pktIn p) (tcpConnTrack p) (udpConns p) n
    (p_closeable p) (trace p).

Definition set_trace (t : list event) (p : proxy) : proxy :=
  mkProxy (acceptedPackets p) (rejectedPackets p) (numTcpOrigins p) (numTcpConns p)
    (numUdpConns p) (opts p) (pktIn p) (tcpConnTrack p) (udpConns p) (nicSeq p)
    (p_closeable p) t.

(** Append effects to the trace, in program order. *)
Definition emit (evs : list event) (p : proxy) : proxy :=
  set_trace (trace p ++ evs) p.

(** Modelled from the spec: the counter helpers [acceptedPacket] and
    [rejectedPacket] are not among the sources.  Sections 4.8 and 8:
    "count accepted", "count rejected", "[rejected_packets] increases
    by 1". *)
Definition acceptedPacket (p : proxy) : proxy :=
  set_acceptedPackets (acceptedPackets p + 1) p.

(** Modelled from the spec: [rejectedPacket], as [acceptedPacket]
    above. *)
Definition rejectedPacket (p : proxy) : proxy :=
  set_rejectedPackets (rejectedPackets p + 1) p.

(** Modelled from the spec: [addr.String()] is not among the sources.
    Section 6: the upstream address is ["dst_ip:dst_port"]. *)
Definition addr_String (a : addr) : string :=
  (ip a +:+ ":" +:+ pretty (port a))%string.

(** ** New *)

(** The [&proxy{...}] literal of [New], with the finalizer that [New]
    then assigns. *)
Definition newProxy (o : Opts) : proxy :=
  {| acceptedPackets := 0; rejectedPackets := 0; numTcpOrigins := 0;
     numTcpConns := 0; numUdpConns := 0;
     opts := o;
     pktIn := [];
     tcpConnTrack := ∅;
     udpConns := ∅;
     nicSeq := 0;
     p_closeable := mkCloseable Open FinProxy None;
     trace := [] |}.

(** [New(downstream, opts)]: the proxy and the error it returns.  The
    downstream read-writer takes no part in the construction. *)
Definition New (downstream : N) (o : option Opts) : option proxy * option go_error :=
  let o := ApplyDefaults o in
  (Some (newProxy o), None).

(** ** startTCPDest and onTCP *)

(** The calls of [startTCPDest] that can fail, in program order. *)
Inductive start_failure := FailCreateNIC | FailAddAddress | FailInit | FailListen.

Section TCP.

(** Which call of [startTCPDest], if any, fails for a given NIC id and
    destination: decided by the netstack. *)
Variable stackEnv : N -> addr -> option start_failure.

(** The clock reading used by [markActive]. *)
Variable now : Z.

(** [startTCPDest(dstAddr)].  [nextNICID] is not among the sources: it
    hands out the next value of the counter.  The destination is
    identified by its NIC id, which is also the id of its endpoint once
    [init] has created it.  [dest.finalize()], after a failed [Listen],
    runs the finalizer of the destination. *)
Definition startTCPDest (dstAddr : addr) (p : proxy)
    : (tcpDest + go_error) * proxy :=
  let nic := (nicSeq p + 1)%N in
  let p := set_nicSeq nic p in
  match stackEnv nic dstAddr with
  | Some FailCreateNIC =>
      (inr (Wrapped "Unable to create TCP NIC: %v" (PlainError "CreateNIC")), p)
  | Some FailAddAddress =>
      (inr (Wrapped "Unable to add IP addr for TCP dest: %v" (PlainError "AddAddress")), p)
  | failure =>
      let '(b, evs) := newBaseConn now nic None None in
      let dest := mkTcpDest (markActive now b) (addr_String dstAddr) ∅ in
      let p := emit evs p in
      match failure with
      | Some FailInit =>
          (inr (Wrapped "Unable to initialize TCP dest: %v" (PlainError "init")), p)
      | Some _ =>
          let dest := mkTcpDest (set_ep (Some nic) (dest_base dest))
                                (dest_addr dest) (conns dest) in
          (inr (Wrapped "Unable to listen for TCP connections: %v" (PlainError "Listen")),
           emit (fst (run_finalizer (dest_base dest))) p)
      | None =>
          let dest := mkTcpDest (set_ep (Some nic) (dest_base dest))
                                (dest_addr dest) (conns dest) in
          (inl dest, emit [EvGo (GoAccept nic)] p)
      end
  end.

(** [onTCP(pkt)]. *)
Definition onTCP (pkt : ipPacket) (p : proxy) : proxy :=
  let dstAddr := dst (ft pkt) in
  let p := emit [EvLock tcpConnTrackMx; EvAccess tcpConnTrackMx;
                 EvUnlock tcpConnTrackMx] p in
  match tcpConnTrack p !! dstAddr with
  | Some _ => emit [EvInject (raw pkt)] p
  | None =>
      match startTCPDest dstAddr p with
      | (inr err, p) => emit [EvLog LevelError "%v"] p
      | (inl dest, p) =>
          let p := emit [EvLock tcpConnTrackMx; EvAccess tcpConnTrackMx;
                         EvUnlock tcpConnTrackMx] p in
          let p := set_tcpConnTrack (<[dstAddr := dest]> (tcpConnTrack p)) p in
          emit [EvInject (raw pkt)] p
      end
  end.

End TCP.

(** ** The acceptor *)

(** What [dest.ep.Accept()] returns: an endpoint with the downstream
    remote address that [GetRemoteAddress] reports for it, or an error. *)
Inductive accept_result :=
  | AcceptOk (endpoint : N) (remote : FullAddress)
  | AcceptErr (e : tcpip_error).

(** What [opts.DialTCP] returns. *)
Inductive dial_result :=
  | DialOk (u : upstreamConn)
  | DialErr (e : go_error).

(** One round of the environment: the result of [Accept] and, for the
    case that the acceptor dials, the result of the dial. *)
Definition accept_round : Type := accept_result * dial_result.

Inductive acceptor_state :=
  | AcceptorReturned            (* the goroutine has ended *)
  | AcceptorAccepting.          (* about to call Accept again *)

(** [removeConn(addr)]. *)
Definition removeConn (a : FullAddress) (dest : tcpDest) : tcpDest :=
  set_conns (delete a (conns dest)) dest.

(** [numConns()]. *)
Definition numConns (dest : tcpDest) : nat := size (conns dest).

(** [func (dest *tcpDest) accept()].  The connection made for an
    accepted flow is identified by its endpoint; its finalizer is the
    literal that calls [dest.removeConn(downstreamAddr)] and returns
    nil.  [newBaseConnWithQueue] is [newBaseConn] with the queue of the
    accepted endpoint. *)
Fixpoint accept (now : Z) (script : list accept_round) (dest : tcpDest)
    : acceptor_state * tcpDest * list event :=
  match script with
  | [] => (AcceptorAccepting, dest, [])
  | (AcceptErr e, _) :: rest =>
      if decide (e = ErrWouldBlock) then
        let '(st, dest', evs) := accept now rest dest in
        (st, dest', EvWaitNotify (dest_id dest) :: evs)
      else (AcceptorReturned, dest, [EvLog LevelError "Accept() failed: %v"])
  | (AcceptOk acceptedEp downstreamAddr, dial) :: rest =>
      match dial with
      | DialErr _ =>
          (AcceptorReturned, dest,
           [EvDialTCP (dest_addr dest);
            EvLog LevelError "Unexpected error dialing upstream to %v: %v"])
      | DialOk up =>
          let '(tcpConn, evs0) :=
            newBaseConn now acceptedEp (Some up)
              (Some (FinCaller (mkCallerFinalizer acceptedEp None))) in
          let tcpConn := set_ep (Some acceptedEp) tcpConn in
          let dest1 := set_conns (<[downstreamAddr := tcpConn]> (conns dest)) dest in
          let '(st, dest', evs) := accept now rest dest1 in
          (st, dest',
           [EvDialTCP (dest_addr dest)] ++ evs0 ++
           [EvGo (GoCopyToUpstream acceptedEp); EvGo (GoCopyFromUpstream acceptedEp);
            EvLock (connsMx (dest_id dest)); EvAccess (connsMx (dest_id dest));
            EvUnlock (connsMx (dest_id dest))] ++ evs)
      end
  end.

(** ** The reaper *)

(** A loop either returns or is still running when the observation
    ends. *)
Inductive loop_result (A : Type) :=
  | LoopReturned (a : A)
  | LoopRunning (a : A).
Arguments LoopReturned {A} a.
Arguments LoopRunning {A} a.

Section Reaper.

(** [live d m]: what [dest.conns] of destination [d] holds when the
    reaper ranges over it, given that it held [m] when the reaper
    copied it under [connsMx].  The mutex is released in between, so
    the acceptor and the finalizers of the destination may have
    changed the map; without interference [live d m = m]. *)
Variable live : N -> gmap FullAddress baseConn -> gmap FullAddress baseConn.

(** The body of [for a, dest := range dests]. *)
Definition reapTCP_dest (now : Z) (p : proxy) (entry : addr * tcpDest) : proxy :=
  let '(a, dest) := entry in
  let mx := connsMx (dest_id dest) in
  let snapshot := snd <$> map_to_list (conns dest) in
  let p := emit [EvLock mx; EvAccess mx; EvUnlock mx] p in
  if (0 <? length snapshot)%nat then
    let ranged := snd <$> map_to_list (live (dest_id dest) (conns dest)) in
    emit (EvAccess mx ::
          ((fun conn => EvGo (GoConnClose (conn_id conn))) <$>
             filter (fun conn => IdleTimeout (opts p) < timeSinceLastActive now conn)
                    ranged)) p
  else if timeSinceLastActive now (dest_base dest) >? IdleTimeout (opts p) then
    let p := emit [EvLock tcpConnTrackMx; EvAccess tcpConnTrackMx;
                   EvUnlock tcpConnTrackMx] p in
    let p := set_tcpConnTrack (delete a (tcpConnTrack p)) p in
    emit (EvCloseBlocking (dest_id dest) :: snd (fst (Close (dest_base dest)))) p
  else p.

End Reaper.

Section ReaperLoop.

Variable live : N -> gmap FullAddress baseConn -> gmap FullAddress baseConn.

(** One iteration of the [for] of [reapTCP], after its sleep: copy the
    destination map under its mutex, then visit the copy. *)
Definition reapTCP_pass (now : Z) (p : proxy) : proxy :=
  let p := emit [EvLock tcpConnTrackMx; EvAccess tcpConnTrackMx;
                 EvUnlock tcpConnTrackMx] p in
  let dests := map_to_list (tcpConnTrack p) in
  foldl (reapTCP_dest live now) p dests.

(** [func (p *proxy) reapTCP()]: [for { time.Sleep(1 * time.Second); ... }].
    The loop has no condition, no [break] and no [return]; [n] bounds
    the number of iterations observed, and the clock advances by the
    time slept. *)
Fixpoint reapTCP (n : nat) (now : Z) (p : proxy) : loop_result proxy :=
  match n with
  | O => LoopRunning p
  | S n' =>
      let p := emit [EvSleep (1 * Second)] p in
      let now := now + 1 * Second in
      reapTCP n' now (reapTCP_pass now p)
  end.

End ReaperLoop.

(** ** The carrier reader *)

(** What [p.downstream.Read(b)] returns: the bytes [b[:n]] read, or an
    error. *)
Inductive read_result :=
  | ReadOk (bytes : list Byte.byte)
  | ReadErr (e : go_error).

#[global] Instance go_error_eq_dec : EqDecision go_error.
Proof. solve_decision. Defined.

(** What the demultiplexer does, seen from outside. *)
Inductive demux_state :=
  | DemuxReturned                (* the goroutine has ended *)
  | DemuxSelecting               (* back at the select *)
  | DemuxInReapTCP.              (* inside the call p.reapTCP() *)

(** The capacity of [p.pktIn]: [make(chan ipPacket, 1000)] in [New]. *)
Definition pktInCapacity : nat := 1000.

(** One iteration of the read loop as the environment sees it: what
    [Read] returns, and how many packets the demultiplexer receives
    from [p.pktIn] from the previous send up to the moment the send of
    this iteration goes through (or ever, when it does not). *)
Record carrier_round := mkCarrierRound {
  cr_read : read_result;
  cr_received : nat
}.

Inductive reader_state :=
  | ReaderReturned (finalErr : go_error)   (* Serve has returned finalErr *)
  | ReaderWaiting (finalErr : go_error)    (* in the deferred wg.Wait(), then to
                                              return finalErr *)
  | ReaderSending (pkt : ipPacket)         (* blocked in p.pktIn <- pkt *)
  | ReaderReading.                         (* about to call Read again *)

Section Reader.

(** [parseIPPacket] is not among the sources: the classifier is a
    parameter, [None] standing for its error result. *)
Variable parseIPPacket : list Byte.byte -> option ipPacket.

(** The [for] of [readDownstreamPackets]; [ReaderReturned] stands for
    its [return] statements.  [pktIn p] is the queue of the channel:
    the demultiplexer takes packets from its front, and the send
    appends when fewer than [pktInCapacity] packets are queued and
    blocks otherwise. *)
Fixpoint readLoop (script : list carrier_round) (p : proxy) : reader_state * proxy :=
  match script with
  | [] => (ReaderReading, p)
  | r :: rest =>
      let p := set_pktIn (drop (cr_received r) (pktIn p)) p in
      match cr_read r with
      | ReadErr err =>
          if decide (err = io_EOF) then (ReaderReturned err, p)
          else (ReaderReturned
                  (Wrapped "Unexpected error reading from downstream: %v" err), p)
      | ReadOk bytes =>
          match parseIPPacket bytes with
          | None =>
              let p := emit [EvLog LevelDebug "Error on inbound packet, ignoring: %v"] p in
              let p := rejectedPacket p in
              readLoop rest p
          | Some pkt =>
              if (length (pktIn p) <? pktInCapacity)%nat
              then readLoop rest (set_pktIn (pktIn p ++ [pkt]) p)
              else (ReaderSending pkt, p)
          end
      end
  end.

(** [readDownstreamPackets(wg)]: the loop, then on return the deferred
    calls, last deferred first: [wg.Wait()], then [p.closeNow()].
    [wg.Wait()] returns when [copyToUpstream] has run its deferred
    [wg.Done()], that is when the demultiplexer ([demux]) has ended;
    until then the function stays in it, and [closeNow] has not run. *)
Definition readDownstreamPackets (demux : demux_state) (script : list carrier_round)
    (p : proxy) : reader_state * proxy :=
  match readLoop script p with
  | (ReaderReturned err, p) =>
      match demux with
      | DemuxReturned => (ReaderReturned err, emit [EvWgWait; EvCloseNow] p)
      | _ => (ReaderWaiting err, emit [EvWgWait] p)
      end
  | r => r
  end.

End Reader.

(** ** The demultiplexer *)

(** Which case of the [select] of [copyToUpstream] fires. *)
Inductive select_case :=
  | SelPkt (pkt : ipPacket)      (* pkt := <-p.pktIn *)
  | SelTick                      (* <-reapTicker.C *)
  | SelClose.                    (* <-p.closeCh *)

Section Demux.

Variable stackEnv : N -> addr -> option start_failure.
Variable live : N -> gmap FullAddress baseConn -> gmap FullAddress baseConn.

(** [onUDP] and [reapUDP] are not among the sources: parameters. *)
Variable onUDP : ipPacket -> proxy -> proxy.
Variable reapUDP : proxy -> proxy.

(** The [switch pkt.ipProto] of the packet case. *)
Definition demux_packet (now : Z) (pkt : ipPacket) (p : proxy) : proxy :=
  if decide (ipProto pkt = IPProtocolTCP) then
    onTCP stackEnv now pkt (acceptedPacket p)
  else if decide (ipProto pkt = IPProtocolUDP) then
    onUDP pkt (acceptedPacket p)
  else if decide (ipProto pkt = IPProtocolICMP) then
    emit [EvInjectICMP (raw pkt)] (acceptedPacket p)
  else
    emit [EvLog LevelDebug "Unknown IP protocol, ignoring: %v"] (rejectedPacket p).

(** [copyToUpstream]: the [for { select { ... } }] driven by the
    cases that fire, in order.  [n] bounds the iterations of
    [reapTCP] that are observed when the ticker case calls it.  The
    result carries the cases that were not consumed.  On return the
    deferred calls run, last deferred first. *)
Fixpoint copyToUpstream (n : nat) (now : Z) (script : list select_case) (p : proxy)
    : demux_state * proxy * list select_case :=
  match script with
  | [] => (DemuxSelecting, p, [])
  | SelPkt pkt :: rest => copyToUpstream n now rest (demux_packet now pkt p)
  | SelTick :: rest =>
      match reapTCP live n now p with
      | LoopReturned p => copyToUpstream n now rest (reapUDP p)
      | LoopRunning p => (DemuxInReapTCP, p, rest)
      end
  | SelClose :: rest =>
      (DemuxReturned,
       emit [EvTickerStop; EvCloseUDP; EvCloseTCP; EvICMPStackClose;
             EvCloseNow; EvWgDone] p,
       rest)
  end.

End Demux.

(** ** Mutex discipline of a trace *)

(** [locks held tr]: the mutexes held after [tr], started with [held]
    locked; [None] when [tr] locks a mutex that is held, unlocks one
    that is not, or accesses a map whose mutex is not held. *)
Fixpoint locks (held : list mutex) (tr : list event) : option (list mutex) :=
  match tr with
  | [] => Some held
  | EvLock m :: tr =>
      if bool_decide (m ∈ held) then None else locks (m :: held) tr
  | EvUnlock m :: tr =>
      if bool_decide (m ∈ held) then locks (filter (fun m' => m' ≠ m) held) tr
      else None
  | EvAccess m :: tr =>
      if bool_decide (m ∈ held) then locks held tr else None
  | _ :: tr => locks held tr
  end.

(** Every map access of [tr] is made under its mutex, and [tr] leaves
    no mutex locked. *)
Definition guarded (tr : list event) : bool :=
  bool_decide (locks [] tr = Some []).

(** The [go] statements of a trace. *)
Definition spawned (tr : list event) : list goroutine :=
  omap (fun e => match e with EvGo g => Some g | _ => None end) tr.


(** The destinations whose acceptor a trace starts: [startTCPDest]
    starts one per destination it creates. *)
Definition acceptors (tr : list event) : list N :=
  omap (fun e => match e with EvGo (GoAccept d) => Some d | _ => None end) tr.

(** ** Auxiliary notions for the statements *)

(** Closing [k] times in a row: the events of all the calls. *)
Fixpoint Close_times (k : nat) (c : baseConn) : baseConn * list event :=
  match k with
  | O => (c, [])
  | S k' =>
      let '(c1, evs, _) := Close c in
      let '(c2, evs') := Close_times k' c1 in
      (c2, evs ++ evs')
  end.

(** What has been delivered and what is still to be written make up
    the input; nothing is left exactly when the loop returns nil. *)
Definition write_invariant (b : list Byte.byte) (r : write_run) : Prop :=
  match w_outcome r with
  | WReturned None => w_delivered r = b
  | WReturned (Some e) =>
      e <> ErrWouldBlock /\
      exists b', w_delivered r ++ b' = b /\ (b <> [] -> b' <> [])
  | WPanic => exists b', w_delivered r ++ b' = b /\ (b <> [] -> b' <> [])
  | WRunning b' _ => w_delivered r ++ b' = b /\ (b <> [] -> b' <> [])
  end.

(** A round in which a frame is read while the demultiplexer receives
    nothing. *)
Definition frame_round (bytes : list Byte.byte) : carrier_round :=
  mkCarrierRound (ReadOk bytes) 0.


(** The [time.Sleep] calls of a trace. *)
Definition sleeps (tr : list event) : list Z :=
  omap (fun e => match e with EvSleep d => Some d | _ => None end) tr.

(** The raw packets a trace injects into the TCP stack, and into the
    ICMP stack. *)
Definition injected (tr : list event) : list (list Byte.byte) :=
  omap (fun e => match e with EvInject b => Some b | _ => None end) tr.

Definition injectedICMP (tr : list event) : list (list Byte.byte) :=
  omap (fun e => match e with EvInjectICMP b => Some b | _ => None end) tr.

(** An accepted flow whose dial succeeded: the accepted endpoint, the
    downstream remote address and the upstream connection. *)
Definition flow : Type := N * FullAddress * upstreamConn.

Definition flow_round (f : flow) : accept_round :=
  (AcceptOk (fst (fst f)) (snd (fst f)), DialOk (snd f)).

(** The connection [accept] builds for a flow. *)
Definition flow_conn (now : Z) (f : flow) : baseConn :=
  set_ep (Some (fst (fst f)))
    (fst (newBaseConn now (fst (fst f)) (Some (snd f))
            (Some (FinCaller (mkCallerFinalizer (fst (fst f)) None))))).

(** The condition under which the reaper deletes a destination: no
    connection, and idle for longer than the timeout. *)
Definition reapable (now idle : Z) (dest : tcpDest) : bool :=
  negb (0 <? length (snd <$> map_to_list (conns dest)))%nat
  && (timeSinceLastActive now (dest_base dest) >? idle).

(** What a goroutine started by the reaper is: the close of a
    connection that the map of some destination holds when the reaper
    ranges over it, idle for longer than the timeout. *)
Definition closes_idle
    (live : N -> gmap FullAddress baseConn -> gmap FullAddress baseConn)
    (now : Z) (p : proxy) (dests : list (addr * tcpDest)) (g : goroutine) : Prop :=
  exists e conn,
    e ∈ dests /\
    conn ∈ (snd <$> map_to_list (live (dest_id (snd e)) (conns (snd e)))) /\
    g = GoConnClose (conn_id conn) /\
    IdleTimeout (opts p) < timeSinceLastActive now conn.

(** ** The two pumps of a connection *)

(** Go's [strings.Contains]. *)
Definition strings_Contains (s substr : string) : bool :=
  match String.index 0 substr s with
  | Some _ => true
  | None => false
  end.

(** The [String()] of a [tcpip.Error], for the errors the pumps look at. *)
Definition tcpip_error_String (e : tcpip_error) : string :=
  match e with
  | ErrWouldBlock => "operation would block"
  | ErrClosedForReceive => "endpoint is closed for receive"
  | ErrOther msg => msg
  end.

(** What [conn.upstream.Read(b)] returns: the bytes [b[:n]], [io.EOF],
    or another error, given by its [Error()] text. *)
Inductive up_read :=
  | UpData (bytes : list Byte.byte)
  | UpEOF
  | UpErr (msg : string).

(** One iteration of [copyFromUpstream] as the environment sees it:
    the result of the read, the results of the endpoint writes that
    [writeToDownstream] makes for it, and the clock when the connection
    is marked active. *)
Record from_round := mkFromRound {
  fr_read : up_read;
  fr_writes : list write_result;
  fr_now : Z
}.

Inductive pump_state :=
  | PumpReturned                       (* the goroutine has ended *)
  | PumpPanicked                       (* a run-time panic unwinds it *)
  | PumpBlocked.                       (* inside a read or a write *)

(** What a pump did: the bytes it passed on, the sleeps of its write
    loops, the formats of its error log lines, and whether the deferred
    close has run. *)
Record pump_run := mkPumpRun {
  pump_end : pump_state;
  pump_conn : baseConn;
  pump_out : list Byte.byte;
  pump_slept : list Z;
  pump_log : list string;
  pump_closed : bool
}.

(** The [for] of [copyFromUpstream], the buffer having a valid size. *)
Fixpoint copyFromUpstream_loop (script : list from_round) (conn : baseConn)
    : pump_run :=
  match script with
  | [] => mkPumpRun PumpBlocked conn [] [] [] false
  | r :: rest =>
      match fr_read r with
      | UpEOF => mkPumpRun PumpReturned conn [] [] [] true
      | UpErr msg =>
          mkPumpRun PumpReturned conn [] []
            (if negb (strings_Contains msg "use of closed network connection")
             then ["Unexpected error reading from upstream: %v"] else [])
            true
      | UpData bytes =>
          let w := writeToDownstream (fr_writes r) bytes in
          match w_outcome w with
          | WReturned None =>
              let run := copyFromUpstream_loop rest (markActive (fr_now r) conn) in
              mkPumpRun (pump_end run) (pump_conn run)
                (w_delivered w ++ pump_out run) (w_slept w ++ pump_slept run)
                (pump_log run) (pump_closed run)
          | WReturned (Some _) =>
              mkPumpRun PumpReturned conn (w_delivered w) (w_slept w)
                ["Unexpected error writing to downstream: %v"] true
          | WPanic => mkPumpRun PumpPanicked conn (w_delivered w) (w_slept w) [] true
          | WRunning _ _ => mkPumpRun PumpBlocked conn (w_delivered w) (w_slept w) [] false
          end
      end
  end.

(** [func (conn *baseConn) copyFromUpstream(responseOptions)].  Every
    iteration starts with [make([]byte, conn.p.opts.MTU-tcpipHeaderBytes)],
    which panics for a negative length; the deferred [conn.Close()]
    runs on return and on panic. *)
Definition copyFromUpstream (mtu : Z) (script : list from_round) (conn : baseConn)
    : pump_run :=
  if mtu - tcpipHeaderBytes <? 0 then mkPumpRun PumpPanicked conn [] [] [] true
  else copyFromUpstream_loop script conn.

(** What [conn.ep.Read(readAddr)] returns: a buffer, or an error.  For
    the error [ErrWouldBlock] the pump waits in a [select], and
    [closedFirst] says which case fires: [<-conn.closeCh] ([true]) or
    [<-conn.notifyCh] ([false]); for any other error it is not looked
    at. *)
Inductive ep_read :=
  | EpData (buf : list Byte.byte)
  | EpErr (e : tcpip_error) (closedFirst : bool).

(** One iteration of [copyToUpstream] as the environment sees it: the
    read, whether [conn.upstream.Write(buf)] fails, the clock, and
    whether [closeCh] is closed at the final [select]. *)
Record to_round := mkToRound {
  tr_read : ep_read;
  tr_write_fails : bool;
  tr_now : Z;
  tr_closed : bool
}.

(** [func (conn *baseConn) copyToUpstream(readAddr)]; [pump_out] is
    what was handed to [conn.upstream.Write], [pump_closed] the deferred
    [conn.closeNow()]. *)
Fixpoint copyToUpstream_conn (script : list to_round) (conn : baseConn) : pump_run :=
  match script with
  | [] => mkPumpRun PumpBlocked conn [] [] [] false
  | r :: rest =>
      match tr_read r with
      | EpErr e closedFirst =>
          if decide (e = ErrWouldBlock) then
            if closedFirst then mkPumpRun PumpReturned conn [] [] [] true
            else copyToUpstream_conn rest conn
          else
            mkPumpRun PumpReturned conn [] []
              (if negb (strings_Contains (tcpip_error_String e)
                                         "endpoint is closed for receive")
               then ["Unexpected error reading from downstream: %v"] else [])
              true
      | EpData buf =>
          if tr_write_fails r then
            mkPumpRun PumpReturned conn buf []
              ["Unexpected error writing to upstream: %v"] true
          else
            let conn := markActive (tr_now r) conn in
            if tr_closed r then mkPumpRun PumpReturned conn buf [] [] true
            else
              let run := copyToUpstream_conn rest conn in
              mkPumpRun (pump_end run) (pump_conn run) (buf ++ pump_out run)
                (pump_slept run) (pump_log run) (pump_closed run)
      end
  end.

(** A round of [copyFromUpstream] in which the read returns bytes. *)
Definition data_round (g : list Byte.byte * list write_result * Z) : from_round :=
  mkFromRound (UpData (fst (fst g))) (snd (fst g)) (snd g).

(** A round of [copyToUpstream] after which the loop goes on: a wake-up
    by the notifier ([None]), or a buffer read and written upstream with
    [closeCh] still open. *)
Definition going_round (g : option (list Byte.byte * Z)) : to_round :=
  match g with
  | None => mkToRound (EpErr ErrWouldBlock false) false 0 false
  | Some (buf, now) => mkToRound (EpData buf) false now false
  end.

(** The buffers of such rounds, in order. *)
Definition going_bytes (gs : list (option (list Byte.byte * Z))) : list Byte.byte :=
  gs ≫= (fun g => match g with None => [] | Some (buf, _) => buf end).

(** ** The downstream fan-in *)

(** [channel.PacketInfo] as the fan-in uses it: the header view and the
    data view of the packet. *)
Record PacketInfo := mkPacketInfo {
  pkt_header : list Byte.byte;
  pkt_data : list Byte.byte
}.

(** Which case of the [select] of the proxy's [copyFromUpstream] fires,
    and for a packet whether [p.downstream.Write] fails. *)
Inductive fanin_case :=
  | FanClosed                                   (* <-p.closedCh *)
  | FanPacket (pktInfo : PacketInfo) (write_fails : bool).

(** What the fan-in did: the packets written downstream, the formats
    of its error log lines, and whether the deferred [p.Close()] has
    run. *)
Record fanin_run := mkFaninRun {
  fanin_end : pump_state;
  fanin_written : list (list Byte.byte);
  fanin_log : list string;
  fanin_closed : bool
}.

(** [func (p *proxy) copyFromUpstream()].  [make([]byte, 0, MTU)] has
    length 0: the two appends build header followed by data, growing
    the slice past its capacity where needed. *)
Fixpoint copyFromUpstream_proxy (script : list fanin_case) : fanin_run :=
  match script with
  | [] => mkFaninRun PumpBlocked [] [] false
  | FanClosed :: _ => mkFaninRun PumpReturned [] [] true
  | FanPacket pktInfo write_fails :: rest =>
      let pkt := [] ++ pkt_header pktInfo ++ pkt_data pktInfo in
      if write_fails then
        mkFaninRun PumpReturned [pkt]
          ["Unexpected error writing to downstream: %v"] true
      else
        let run := copyFromUpstream_proxy rest in
        mkFaninRun (fanin_end run) (pkt :: fanin_written run) (fanin_log run)
          (fanin_closed run)
  end.

(** Which cases of the two nested [select]s of [copyToDownstream]
    fire: the outer one receives a packet from the channel endpoint or
    sees [closedCh]; the inner one sends the packet on [toDownstream]
    or sees [closedCh]. *)
Inductive drain_case :=
  | DrainClosed                                 (* outer: <-o.closedCh *)
  | DrainSent (pktInfo : PacketInfo)            (* received, then sent *)
  | DrainClosedHolding (pktInfo : PacketInfo).  (* received, then <-o.closedCh *)

(** [func (o *origin) copyToDownstream()] (the goroutine of
    [stackForICMP] has the same body): the packets sent on
    [toDownstream], and whether the goroutine has ended. *)
Fixpoint copyToDownstream (script : list drain_case) : pump_state * list PacketInfo :=
  match script with
  | [] => (PumpBlocked, [])
  | DrainClosed :: _ => (PumpReturned, [])
  | DrainClosedHolding _ :: _ => (PumpReturned, [])
  | DrainSent pktInfo :: rest =>
      let '(st, sent) := copyToDownstream rest in (st, pktInfo :: sent)
  end.

(** ** origin: init and the clients *)

(** The calls of [init] that can fail, in program order. *)
Inductive init_failure :=
  | InitCreateNIC | InitAddAddress | InitNewEndpoint | InitBind.

Definition set_o_base (b : baseConn) (o : origin) : origin :=
  mkOrigin b (o_addr o) (o_clients o).

Definition set_o_clients (m : gmap FullAddress baseConn) (o : origin) : origin :=
  mkOrigin (o_base o) (o_addr o) m.

(** [func (o *origin) init(transportProtocol, bindAddr) error].
    [failure] says which stack call fails, [endpoint] is the endpoint
    that [NewEndpoint] returns when it succeeds (it returns nil with an
    error); [o.ep] is assigned by that call, before [Bind]. *)
Definition init (failure : option init_failure) (endpoint : N) (o : origin)
    : origin * option go_error :=
  match failure with
  | Some InitCreateNIC =>
      (o, Some (Wrapped "Unable to create TCP NIC: %v" (PlainError "CreateNIC")))
  | Some InitAddAddress =>
      (o, Some (Wrapped "Unable to assign NIC IP address: %v" (PlainError "AddAddress")))
  | Some InitNewEndpoint =>
      (set_o_base (set_ep None (o_base o)) o,
       Some (Wrapped "Unable to create endpoint: %v" (PlainError "NewEndpoint")))
  | Some InitBind =>
      (set_o_base (set_ep (Some endpoint) (o_base o)) o,
       Some (Wrapped "Bind failed: %v" (PlainError "Bind")))
  | None => (set_o_base (set_ep (Some endpoint) (o_base o)) o, None)
  end.

(** [addClient], [removeClient], [numClients]. *)
Definition addClient (a : FullAddress) (client : baseConn) (o : origin) : origin :=
  set_o_clients (<[a := client]> (o_clients o)) o.

Definition removeClient (a : FullAddress) (o : origin) : origin :=
  set_o_clients (delete a (o_clients o)) o.

Definition numClients (o : origin) : nat := size (o_clients o).

(** ** Serve *)

(** The calls of [stackForICMP] that can fail. *)
Inductive icmp_failure := IcmpCreateNIC | IcmpSetPromiscuous.

(** What [Serve] itself starts or closes, in program order. *)
Inductive serve_event :=
  | SvStackClose                       (* s.Close() in stackForICMP *)
  | SvGoICMPDrain                      (* the goroutine of stackForICMP *)
  | SvGoTrackStats                     (* go p.trackStats() *)
  | SvGoCopyFromUpstream               (* go p.copyFromUpstream() *)
  | SvGoCopyToUpstream.                (* go p.copyToUpstream(...) *)

(** [stackForICMP()]: the error, if any, and what it did. *)
Definition stackForICMP (failure : option icmp_failure)
    : option go_error * list serve_event :=
  match failure with
  | Some IcmpCreateNIC =>
      (Some (Wrapped "Unable to create ICMP NIC: %v" (PlainError "CreateNIC")),
       [SvStackClose])
  | Some IcmpSetPromiscuous =>
      (Some (Wrapped "Unable to set ICMP NIC to promiscious mode: %v"
                     (PlainError "SetPromiscuousMode")),
       [SvStackClose])
  | None => (None, [SvGoICMPDrain])
  end.

(** [func (p *proxy) Serve() error]: what it returns (or where it
    stands), the proxy, and what it started.  The goroutines it starts
    run beside it, [demux] being what the one running [copyToUpstream]
    comes to; [readDownstreamPackets] runs in [Serve] itself. *)
Definition Serve (parseIPPacket : list Byte.byte -> option ipPacket)
    (failure : option icmp_failure) (demux : demux_state)
    (script : list carrier_round) (p : proxy)
    : reader_state * proxy * list serve_event :=
  match stackForICMP failure with
  | (Some err, evs) => (ReaderReturned err, p, evs)
  | (None, evs) =>
      let '(st, p') := readDownstreamPackets parseIPPacket demux script p in
      (st, p', evs ++ [SvGoTrackStats; SvGoCopyFromUpstream; SvGoCopyToUpstream])
  end.

(** * Properties *)

(** ** Options and construction *)

Lemma ApplyDefaults_nil : ApplyDefaults None = ApplyDefaults (Some zeroOpts).
Proof. reflexivity. Qed.

(** C9: [ApplyDefaults] gives every option that is zero or negative (or,
    for the two dial functions, nil) its default: MTU 1500,
    OutboundBufferDepth 10000, IdleTimeout 65 s, TCPConnectBacklog 10,
    StatsInterval 15 s and the net.Dialer-based dial functions; it
    leaves every positive option and every dial function that was set
    as it is.  A nil receiver gets all the defaults. *)
Theorem ApplyDefaults_spec :
  (forall o : Opts,
     let d := ApplyDefaults (Some o) in
     (MTU o <= 0 -> MTU d = 1500) /\
     (0 < MTU o -> MTU d = MTU o) /\
     (OutboundBufferDepth o <= 0 -> OutboundBufferDepth d = 10000) /\
     (0 < OutboundBufferDepth o -> OutboundBufferDepth d = OutboundBufferDepth o) /\
     (IdleTimeout o <= 0 -> IdleTimeout d = 65 * Second) /\
     (0 < IdleTimeout o -> IdleTimeout d = IdleTimeout o) /\
     (TCPConnectBacklog o <= 0 -> TCPConnectBacklog d = 10) /\
     (0 < TCPConnectBacklog o -> TCPConnectBacklog d = TCPConnectBacklog o) /\
     (StatsInterval o <= 0 -> StatsInterval d = 15 * Second) /\
     (0 < StatsInterval o -> StatsInterval d = StatsInterval o) /\
     (DialTCP o = None -> DialTCP d = Some NetDialerDialContext) /\
     (forall f, DialTCP o = Some f -> DialTCP d = Some f) /\
     (DialUDP o = None -> DialUDP d = Some NetDialerDialUDP) /\
     (forall f, DialUDP o = Some f -> DialUDP d = Some f)) /\
  ApplyDefaults None =
    mkOpts 1500 10000 (65 * Second) 10 (15 * Second)
           (Some NetDialerDialContext) (Some NetDialerDialUDP).
Proof.
  split; [|reflexivity].
  intros [m b i t s dt du]; cbn -[Z.mul].
  unfold DefaultMTU, DefaultOutboundBufferDepth, DefaultIdleTimeout,
    DefaultTCPConnectBacklog, DefaultStatsInterval.
  repeat split; intros;
    try (destruct (Z.leb_spec0 m 0); lia);
    try (destruct (Z.leb_spec0 b 0); lia);
    try (destruct (Z.leb_spec0 i 0); lia);
    try (destruct (Z.leb_spec0 t 0); lia);
    try (destruct (Z.leb_spec0 s 0); lia);
    subst; reflexivity.
Qed.

(** Options with a zero MTU, a negative buffer depth and a dial function
    for UDP that the caller set. *)
Lemma ApplyDefaults_spec_witness :
  let o := mkOpts 0 (-5) (3 * Second) 0 0 None (Some (UserDialUDP 7)) in
  MTU (ApplyDefaults (Some o)) = 1500 /\
  OutboundBufferDepth (ApplyDefaults (Some o)) = 10000 /\
  IdleTimeout (ApplyDefaults (Some o)) = 3 * Second /\
  DialTCP (ApplyDefaults (Some o)) = Some NetDialerDialContext /\
  DialUDP (ApplyDefaults (Some o)) = Some (UserDialUDP 7).
Proof.
  intros o.
  destruct (proj1 ApplyDefaults_spec o)
    as (Hm & _ & Hb & _ & _ & Hi & _ & _ & _ & _ & Ht & _ & _ & Hu).
  refine (conj (Hm _) (conj (Hb _) (conj (Hi _) (conj (Ht eq_refl) (Hu _ eq_refl)))));
    vm_compute; congruence.
Defined.

(** C10: [New] returns a proxy and a nil error for every downstream
    and every options argument, nil included; the proxy holds the
    defaulted options. *)
Theorem New_never_fails (downstream : N) (o : option Opts) :
  exists p : proxy,
    New downstream o = (Some p, None) /\
    opts p = ApplyDefaults o /\
    tcpConnTrack p = ∅ /\ udpConns p = ∅ /\ pktIn p = [] /\
    acceptedPackets p = 0 /\ rejectedPackets p = 0.
Proof. eexists; repeat split. Qed.

(** ** Finalization *)

Lemma Close_closed (c : baseConn) :
  closeState (conn_closeable c) = Closed ->
  Close c = (c, [], closeResult (conn_closeable c)).
Proof. intros H; unfold Close; rewrite H; reflexivity. Qed.

Lemma Close_open (c : baseConn) :
  closeState (conn_closeable c) = Open ->
  Close c =
    (set_closeable
       (mkCloseable Closed (finalizer (conn_closeable c)) (snd (run_finalizer c))) c,
     fst (run_finalizer c), snd (run_finalizer c)).
Proof.
  intros H; unfold Close; rewrite H.
  destruct (run_finalizer c); reflexivity.
Qed.

Lemma Close_times_closed (k : nat) (c : baseConn) :
  closeState (conn_closeable c) = Closed -> Close_times k c = (c, []).
Proof.
  induction k as [|k IH]; intros H; [reflexivity|].
  cbn [Close_times]. rewrite (Close_closed c H), (IH H). reflexivity.
Qed.

(** C5: closing an origin runs its finalizer once, and the finalizer
    closes the stack, then runs the caller's finalizer (when one was
    supplied), then drains the outbound channel, then closes the
    upstream (when there is one), then unregisters the wait-queue entry
    and closes the endpoint (when one was created); closing again does
    nothing more.  A connection made by [newBaseConn] has no stack and
    no channel of its own: its finalizer does the remaining steps in
    the same order. *)
Theorem finalization_order (now t : Z) (id : N) (a : addr)
    (up : option upstreamConn) (fin : option callerFinalizer) (e : option N)
    (k : nat) :
  let o := set_lastActive t (set_ep e (o_base (fst (newOrigin now id a up fin)))) in
  let c := set_lastActive t
             (set_ep e (fst (newBaseConn now id up (FinCaller <$> fin)))) in
  snd (Close_times (S k) o) =
    [EvStackClose id]
      ++ (EvCallerFinalizer <$> option_list (fin_tag <$> fin))
      ++ [EvDrain id]
      ++ (EvUpstreamClose <$> option_list (up_id <$> up))
      ++ [EvEventUnregister id]
      ++ (EvEndpointClose <$> option_list e) /\
  snd (Close_times (S k) c) =
    (EvCallerFinalizer <$> option_list (fin_tag <$> fin))
      ++ (EvUpstreamClose <$> option_list (up_id <$> up))
      ++ [EvEventUnregister id]
      ++ (EvEndpointClose <$> option_list e) /\
  closeState (conn_closeable (fst (Close_times (S k) o))) = Closed /\
  closeState (conn_closeable (fst (Close_times (S k) c))) = Closed.
Proof.
  intros o c.
  assert (Ho : closeState (conn_closeable o) = Open) by reflexivity.
  assert (Hc : closeState (conn_closeable c) = Open) by reflexivity.
  cbn [Close_times].
  rewrite (Close_open o Ho), (Close_open c Hc).
  rewrite !Close_times_closed by reflexivity.
  rewrite !app_nil_r.
  destruct fin as [[tag ret]|], up as [[u ue]|], e as [ee|];
    repeat split; reflexivity.
Qed.

(** ** The endpoint write loop *)

Lemma wrap64_id (z : Z) : int64_min <= z <= int64_max -> wrap64 z = z.
Proof.
  unfold int64_min, int64_max, wrap64; intros H.
  rewrite Z.mod_small; lia.
Qed.

Lemma waitTime_in_range (i : Z) :
  0 <= i <= maxBackoffAttempts ->
  waitTime i = Z.min (i * Millisecond) maxWriteWait.
Proof.
  unfold maxBackoffAttempts, waitTime, int64_max, maxWriteWait, Millisecond.
  intros H.
  assert (Hmax : (2 ^ 63 - 1) / 1000000 = 9223372036854) by reflexivity.
  rewrite Hmax in H.
  rewrite Z.mul_1_r, (wrap64_id i), (wrap64_id (i * 1000000));
    unfold int64_min, int64_max; try lia.
  destruct (Z.gtb_spec (i * 1000000) (30 * 1000000)); lia.
Qed.

Lemma backoff_in_range (i : Z) :
  0 <= i <= maxBackoffAttempts ->
  backoff i = if decide (i = 0) then [] else [Z.min (i * Millisecond) maxWriteWait].
Proof.
  intros H. unfold backoff. rewrite (waitTime_in_range i H).
  unfold maxWriteWait, Millisecond in *.
  destruct (decide (i = 0)) as [->|Hne]; [reflexivity|].
  destruct (Z.gtb_spec (Z.min (i * 1000000) (30 * 1000000)) 0); [reflexivity|lia].
Qed.

(** Running a script in two parts. *)
Lemma writeLoop_app (pre post : list write_result) (b : list Byte.byte) (i : Z) :
  writeLoop (pre ++ post) b i =
    match w_outcome (writeLoop pre b i) with
    | WRunning b' i' =>
        let r := writeLoop post b' i' in
        mkWriteRun (w_outcome r)
          (w_delivered (writeLoop pre b i) ++ w_delivered r)
          (w_slept (writeLoop pre b i) ++ w_slept r)
    | _ => writeLoop pre b i
    end.
Proof.
  revert b i; induction pre as [|[n|e] pre IH]; intros b i; cbn [app writeLoop].
  - cbn. destruct (writeLoop post b i); reflexivity.
  - destruct ((0 <=? n) && (n <=? Z.of_nat (length b))); [|reflexivity].
    destruct (drop (Z.to_nat n) b) as [|x b'] eqn:Hd; [reflexivity|].
    rewrite IH; cbn [w_outcome w_delivered w_slept].
    destruct (w_outcome (writeLoop pre (x :: b') (wrap64 (i + 1)))) eqn:Ho; cbn;
      rewrite ?Ho, ?app_assoc; reflexivity.
  - destruct (decide (e = ErrWouldBlock)); [|reflexivity].
    rewrite IH; cbn [w_outcome w_delivered w_slept].
    destruct (w_outcome (writeLoop pre b (wrap64 (i + 1)))) eqn:Ho; cbn;
      rewrite ?Ho, ?app_assoc; reflexivity.
Qed.

(** The counter is the number of attempts made so far: it is
    incremented after every attempt and never set back. *)
Lemma writeLoop_counter (pre : list write_result) (b b' : list Byte.byte) (i i' : Z) :
  0 <= i -> i + Z.of_nat (length pre) <= int64_max ->
  w_outcome (writeLoop pre b i) = WRunning b' i' ->
  i' = i + Z.of_nat (length pre).
Proof.
  revert b i; induction pre as [|[n|e] pre IH]; intros b i Hi Hmax;
    cbn [writeLoop length].
  - cbn. intros [= _ <-]. lia.
  - cbn [length] in Hmax.
    destruct ((0 <=? n) && (n <=? Z.of_nat (length b))); [|discriminate].
    destruct (drop (Z.to_nat n) b) as [|x b1]; [discriminate|].
    cbn [w_outcome]. intros H.
    rewrite wrap64_id in H by (unfold int64_min, int64_max in *; lia).
    apply IH in H; lia.
  - cbn [length] in Hmax.
    destruct (decide (e = ErrWouldBlock)); [|discriminate].
    cbn [w_outcome]. intros H.
    rewrite wrap64_id in H by (unfold int64_min, int64_max in *; lia).
    apply IH in H; lia.
Qed.

Lemma writeLoop_invariant (script : list write_result) (b : list Byte.byte) (i : Z) :
  write_invariant b (writeLoop script b i).
Proof.
  revert b i; induction script as [|[n|e] script IH]; intros b i;
    unfold write_invariant; cbn [writeLoop].
  - cbn. split; [reflexivity|tauto].
  - destruct ((0 <=? n) && (n <=? Z.of_nat (length b))) eqn:Hn; cbn.
    2:{ exists b; split; [reflexivity|tauto]. }
    destruct (drop (Z.to_nat n) b) as [|x b1] eqn:Hd; cbn.
    + rewrite <- (take_drop (Z.to_nat n) b) at 2. rewrite Hd, app_nil_r. reflexivity.
    + specialize (IH (x :: b1) (wrap64 (i + 1))). unfold write_invariant in IH.
      assert (Hb : take (Z.to_nat n) b ++ x :: b1 = b)
        by (rewrite <- Hd; apply take_drop).
      destruct (w_outcome (writeLoop script (x :: b1) (wrap64 (i + 1))))
        as [[e'|]| |b2 i2].
      * destruct IH as [He (b2 & H1 & H2)]. split; [exact He|].
        exists b2. rewrite <- app_assoc, H1. split; [exact Hb|]. intros _. apply H2. discriminate.
      * rewrite IH. exact Hb.
      * destruct IH as (b2 & H1 & H2).
        exists b2. rewrite <- app_assoc, H1. split; [exact Hb|]. intros _. apply H2. discriminate.
      * destruct IH as [H1 H2]. rewrite <- app_assoc, H1.
        split; [exact Hb|]. intros _. apply H2. discriminate.
  - destruct (decide (e = ErrWouldBlock)) as [->|Hne]; cbn.
    + specialize (IH b (wrap64 (i + 1))). unfold write_invariant in IH.
      destruct (w_outcome (writeLoop script b (wrap64 (i + 1)))) as [[e'|]| |b2 i2];
        exact IH.
    + split; [exact Hne|]. exists b. split; [reflexivity|tauto].
Qed.

Lemma completes_returns (script : list write_result) (b : list Byte.byte) (i : Z) :
  completes script (length b) = true ->
  w_outcome (writeLoop script b i) = WReturned None.
Proof.
  revert b i; induction script as [|[n|e] script IH]; intros b i; cbn [completes writeLoop].
  - discriminate.
  - intros H. apply andb_prop in H as [Hn H]. rewrite Hn.
    destruct (drop (Z.to_nat n) b) as [|x b1] eqn:Hd; [reflexivity|].
    cbn [w_outcome].
    assert (Hlen : length (x :: b1) = (length b - Z.to_nat n)%nat)
      by (rewrite <- Hd; apply length_drop).
    destruct (Nat.eqb_spec (Z.to_nat n) (length b)) as [Heq|Hne].
    + rewrite Heq, Nat.sub_diag in Hlen. discriminate.
    + rewrite <- Hlen in H. apply IH. exact H.
  - intros H. apply andb_prop in H as [He H].
    apply bool_decide_eq_true in He. subst e.
    destruct (decide (ErrWouldBlock = ErrWouldBlock)); [|congruence].
    cbn [w_outcome]. apply IH. exact H.
Qed.

(** C2, as the code has it: a short write advances the slice by the
    bytes written; a WouldBlock at the attempt with counter [i] sleeps
    [min(i * 1ms, 30ms)] (no sleep for [i = 0]), where [i] is the number
    of attempts made so far in this call, successful writes included,
    as long as that number is at most [maxBackoffAttempts]; the loop
    returns nil only when everything was delivered, for a non-empty
    input also whenever everything was delivered, and it does return
    nil when the underlying writes eventually succeed. *)
Theorem writeToDownstream_backoff_and_delivery
    (script pre : list write_result) (b : list Byte.byte) :
  (forall n rest i, 0 <= n < Z.of_nat (length b) ->
     writeLoop (WriteOk n :: rest) b i =
       let r := writeLoop rest (drop (Z.to_nat n) b) (wrap64 (i + 1)) in
       mkWriteRun (w_outcome r) (take (Z.to_nat n) b ++ w_delivered r) (w_slept r)) /\
  (forall b' i,
     Z.of_nat (length pre) <= maxBackoffAttempts ->
     w_outcome (writeToDownstream pre b) = WRunning b' i ->
     i = Z.of_nat (length pre) /\
     writeToDownstream (pre ++ [WriteErr ErrWouldBlock]) b =
       mkWriteRun (WRunning b' (i + 1))
         (w_delivered (writeToDownstream pre b))
         (w_slept (writeToDownstream pre b)
            ++ if decide (i = 0) then []
               else [Z.min (i * Millisecond) (30 * Millisecond)])) /\
  (w_outcome (writeToDownstream script b) = WReturned None ->
     w_delivered (writeToDownstream script b) = b) /\
  (b <> [] -> w_delivered (writeToDownstream script b) = b ->
     w_outcome (writeToDownstream script b) = WReturned None) /\
  (completes script (length b) = true ->
     w_outcome (writeToDownstream script b) = WReturned None /\
     w_delivered (writeToDownstream script b) = b).
Proof.
  assert (Hinv := writeLoop_invariant script b 0).
  unfold write_invariant in Hinv. fold (writeToDownstream script b) in Hinv.
  repeat split.
  - intros n rest i [Hn0 Hn]. cbn [writeLoop].
    destruct (Z.leb_spec0 0 n); [|lia].
    destruct (Z.leb_spec0 n (Z.of_nat (length b))); [|lia].
    cbn [andb].
    destruct (drop (Z.to_nat n) b) as [|x b1] eqn:Hd; [|reflexivity].
    apply (f_equal length) in Hd. rewrite length_drop in Hd. cbn in Hd. lia.
  - unfold writeToDownstream in *.
    apply (writeLoop_counter pre b b' 0 i) in H0; [lia|lia|].
    unfold maxBackoffAttempts, int64_max, Millisecond in *.
    assert ((2 ^ 63 - 1) / 1000000 = 9223372036854) as Hm by reflexivity.
    rewrite Hm in H. lia.
  - assert (Hi : i = Z.of_nat (length pre)).
    { unfold writeToDownstream in *.
      apply (writeLoop_counter pre b b' 0 i) in H0; [lia|lia|].
      unfold maxBackoffAttempts, int64_max, Millisecond in *.
      assert ((2 ^ 63 - 1) / 1000000 = 9223372036854) as Hm by reflexivity.
      rewrite Hm in H. lia. }
    unfold writeToDownstream in *. rewrite writeLoop_app, H0.
    cbn [writeLoop]. destruct (decide (ErrWouldBlock = ErrWouldBlock)); [|congruence].
    cbn [w_outcome w_delivered w_slept].
    rewrite backoff_in_range by lia.
    rewrite wrap64_id, !app_nil_r; [reflexivity|].
    unfold maxBackoffAttempts, int64_max, int64_min, Millisecond in *.
    assert ((2 ^ 63 - 1) / 1000000 = 9223372036854) as Hm by reflexivity.
    rewrite Hm in H. lia.
  - intros Ho. rewrite Ho in Hinv. exact Hinv.
  - intros Hb Hd.
    destruct (w_outcome (writeToDownstream script b)) as [[e|]| |b' i];
      [exfalso|reflexivity|exfalso|exfalso].
    + destruct Hinv as [_ (b' & H1 & H2)]. rewrite Hd in H1.
      apply H2; [exact Hb|]. apply (app_inv_head b). rewrite app_nil_r. exact H1.
    + destruct Hinv as (b' & H1 & H2). rewrite Hd in H1.
      apply H2; [exact Hb|]. apply (app_inv_head b). rewrite app_nil_r. exact H1.
    + destruct Hinv as [H1 H2]. rewrite Hd in H1.
      apply H2; [exact Hb|]. apply (app_inv_head b). rewrite app_nil_r. exact H1.
  - apply completes_returns. exact H.
  - apply (completes_returns script b 0) in H.
    fold (writeToDownstream script b) in H. rewrite H in Hinv. exact Hinv.
Qed.

(** A run of the theorem: four bytes, two of them taken after a first
    WouldBlock, then a second WouldBlock at counter 2. *)
Lemma writeToDownstream_backoff_and_delivery_witness :
  writeToDownstream
    ([WriteErr ErrWouldBlock; WriteOk 2] ++ [WriteErr ErrWouldBlock])
    [Byte.x01; Byte.x02; Byte.x03; Byte.x04] =
    mkWriteRun (WRunning [Byte.x03; Byte.x04] 3) [Byte.x01; Byte.x02] [2000000] /\
  w_outcome
    (writeToDownstream
       [WriteErr ErrWouldBlock; WriteOk 2; WriteErr ErrWouldBlock; WriteOk 2]
       [Byte.x01; Byte.x02; Byte.x03; Byte.x04]) = WReturned None.
Proof.
  destruct (writeToDownstream_backoff_and_delivery
              [WriteErr ErrWouldBlock; WriteOk 2; WriteErr ErrWouldBlock; WriteOk 2]
              [WriteErr ErrWouldBlock; WriteOk 2]
              [Byte.x01; Byte.x02; Byte.x03; Byte.x04])
    as (_ & Hsleep & _ & _ & Hdone).
  split.
  - refine (proj2 (Hsleep [Byte.x03; Byte.x04] 2 _ eq_refl)).
    vm_compute. discriminate.
  - exact (proj1 (Hdone eq_refl)).
Defined.

(** C2, as stated, on a concrete run: after three successful one-byte
    writes the fourth attempt returns WouldBlock.  No attempt has failed
    since the last progress, so the stated schedule sleeps nothing; the
    code sleeps 3 ms, its counter having counted the successful writes. *)
Lemma writeToDownstream_counter_not_reset :
  let script := [WriteOk 1; WriteOk 1; WriteOk 1; WriteErr ErrWouldBlock; WriteOk 1] in
  let b := [Byte.x01; Byte.x02; Byte.x03; Byte.x04] in
  w_slept (writeToDownstream script b) = [3 * Millisecond] /\
  w_slept (writeToDownstream_spec script b) = [] /\
  w_slept (writeToDownstream script b) <> w_slept (writeToDownstream_spec script b).
Proof. repeat split. vm_compute. discriminate. Qed.

(** ** Traces *)

Lemma locks_app (h : list mutex) (a b : list event) :
  locks h (a ++ b) = locks h a ≫= (fun h' => locks h' b).
Proof.
  revert h; induction a as [|e a IH]; intros h; [reflexivity|].
  destruct e; cbn [app locks]; try apply IH;
    destruct (bool_decide _); try reflexivity; apply IH.
Qed.

Lemma acceptors_app (a b : list event) :
  acceptors (a ++ b) = acceptors a ++ acceptors b.
Proof. apply omap_app. Qed.

Lemma trace_emit (evs : list event) (p : proxy) : trace (emit evs p) = trace p ++ evs.
Proof. reflexivity. Qed.

(** ** One destination per key *)

Section OnTCP.

Variable stackEnv : N -> addr -> option start_failure.
Variable now : Z.

(** [startTCPDest] leaves the destination map alone, takes no lock,
    and starts an acceptor exactly when it returns a destination. *)
Lemma startTCPDest_effect (k : addr) (p : proxy) :
  tcpConnTrack (snd (startTCPDest stackEnv now k p)) = tcpConnTrack p /\
  exists new,
    trace (snd (startTCPDest stackEnv now k p)) = trace p ++ new /\
    (forall h, locks h new = Some h) /\
    acceptors new =
      match fst (startTCPDest stackEnv now k p) with
      | inl d => [dest_id d]
      | inr _ => []
      end.
Proof.
  unfold startTCPDest.
  destruct (stackEnv (nicSeq p + 1)%N k) as [[]|]; cbn.
  - split; [reflexivity|]. exists []. rewrite app_nil_r. auto.
  - split; [reflexivity|]. exists []. rewrite app_nil_r. auto.
  - split; [reflexivity|]. eexists. split; [reflexivity|]. auto.
  - split; [reflexivity|]. eexists.
    split; [rewrite <- app_assoc; reflexivity|]. auto.
  - split; [reflexivity|]. eexists.
    split; [rewrite <- app_assoc; reflexivity|]. auto.
Qed.

(** One packet: the map is left as it is, or the key was absent and
    gets the one destination that was started. *)
Lemma onTCP_step (pkt : ipPacket) (p : proxy) :
  exists new,
    trace (onTCP stackEnv now pkt p) = trace p ++ new /\
    locks [] new = Some [] /\
    ((tcpConnTrack (onTCP stackEnv now pkt p) = tcpConnTrack p /\
      acceptors new = []) \/
     (tcpConnTrack p !! dst (ft pkt) = None /\
      exists d,
        tcpConnTrack (onTCP stackEnv now pkt p)
          = <[dst (ft pkt) := d]> (tcpConnTrack p) /\
        acceptors new = [dest_id d])).
Proof.
  unfold onTCP.
  set (p1 := emit [EvLock tcpConnTrackMx; EvAccess tcpConnTrackMx;
                   EvUnlock tcpConnTrackMx] p).
  change (tcpConnTrack p1) with (tcpConnTrack p).
  destruct (tcpConnTrack p !! dst (ft pkt)) as [d|] eqn:Hk.
  - eexists. split; [cbn; rewrite <- app_assoc; reflexivity|].
    split; [reflexivity|]. left. split; reflexivity.
  - destruct (startTCPDest_effect (dst (ft pkt)) p1) as (Hm & new & Htr & Hl & Ha).
    destruct (startTCPDest stackEnv now (dst (ft pkt)) p1) as [[d|err] p2];
      cbn [fst snd] in *.
    + eexists. split.
      { cbn. rewrite Htr. cbn. rewrite <- !app_assoc. reflexivity. }
      split.
      { cbn [app locks]. cbn. rewrite locks_app, Hl. reflexivity. }
      right. split; [reflexivity|]. exists d. split.
      { cbn. rewrite Hm. reflexivity. }
      cbn. rewrite acceptors_app, Ha. reflexivity.
    + eexists. split.
      { cbn. rewrite Htr. cbn. rewrite <- !app_assoc. reflexivity. }
      split.
      { cbn. rewrite locks_app, Hl. reflexivity. }
      left. split; [exact Hm|].
      cbn. rewrite acceptors_app, Ha. reflexivity.
Qed.

End OnTCP.

Section OnTCPRun.

Variable stackEnv : N -> addr -> option start_failure.
Variable now : Z.

(** C4: whatever TCP packets [onTCP] handles, in a row: every map
    access is made under the mutex of the map; a destination that is
    in the map under some key stays there, and is not replaced; the
    destinations started are as many as the keys the map gained; and
    when all the packets go to the same destination address, at most
    one destination is started for it, and none when the key is
    already present. *)
Theorem onTCP_one_origin_per_key (pkts : list ipPacket) (p : proxy) :
  let p' := foldl (fun p pkt => onTCP stackEnv now pkt p) p pkts in
  exists new,
    trace p' = trace p ++ new /\
    guarded new = true /\
    (forall k d, tcpConnTrack p !! k = Some d -> tcpConnTrack p' !! k = Some d) /\
    (length (acceptors new) + size (tcpConnTrack p) = size (tcpConnTrack p'))%nat /\
    (forall k, (forall pkt, pkt ∈ pkts -> dst (ft pkt) = k) ->
       (length (acceptors new) <= 1)%nat /\
       (is_Some (tcpConnTrack p !! k) ->
          acceptors new = [] /\ tcpConnTrack p' = tcpConnTrack p)).
Proof.
  cbn zeta. unfold guarded.
  revert p; induction pkts as [|pkt pkts IH]; intros p; cbn [foldl].
  - exists []. rewrite app_nil_r. repeat split; auto.
  - destruct (onTCP_step stackEnv now pkt p) as (new1 & Htr1 & Hl1 & Hstep).
    destruct (IH (onTCP stackEnv now pkt p))
      as (new2 & Htr2 & Hl2 & Hkeep & Hsize & Hsame).
    apply bool_decide_eq_true in Hl2.
    exists (new1 ++ new2).
    split; [rewrite Htr2, Htr1, app_assoc; reflexivity|].
    split; [apply bool_decide_eq_true; rewrite locks_app, Hl1; exact Hl2|].
    rewrite acceptors_app, length_app.
    destruct Hstep as [[Hm Ha]|(Hnone & d & Hm & Ha)].
    + rewrite Hm in *. rewrite Ha. cbn [length].
      split; [exact Hkeep|]. split; [exact Hsize|].
      intros k Hk.
      destruct (Hsame k) as [Hle Hpres].
      { intros q Hq. apply Hk. right. exact Hq. }
      split; [lia|]. intros Hin. destruct (Hpres Hin) as [-> ->]. auto.
    + rewrite Hm in *. rewrite Ha. cbn [length].
      split.
      { intros k d' Hkd. apply Hkeep. rewrite lookup_insert_ne; [exact Hkd|].
        intros <-. congruence. }
      split.
      { rewrite <- Hsize, map_size_insert_None by exact Hnone. lia. }
      intros k Hk.
      assert (Hkey : dst (ft pkt) = k) by (apply Hk; left).
      destruct (Hsame k) as [Hle Hpres].
      { intros q Hq. apply Hk. right. exact Hq. }
      destruct Hpres as [Hnil Hmap].
      { rewrite <- Hkey, lookup_insert_eq. eauto. }
      rewrite Hnil. split; [cbn; lia|].
      intros [d' Hd']. rewrite <- Hkey in Hd'. congruence.
Qed.

End OnTCPRun.

(** Two packets to 10.0.0.1:9 on a fresh proxy whose stack never
    fails: one destination is started. *)
Lemma onTCP_one_origin_per_key_witness :
  let pkt := mkPacket 6 (FourTuple (Addr "192.168.0.2" 40000) (Addr "10.0.0.1" 9))
                      [Byte.x45] in
  let p := newProxy (ApplyDefaults None) in
  exists new,
    trace (foldl (fun p pkt => onTCP (fun _ _ => None) 100 pkt p) p [pkt; pkt])
      = trace p ++ new /\
    (length (acceptors new) <= 1)%nat.
Proof.
  intros pkt p.
  destruct (onTCP_one_origin_per_key (fun _ _ => None) 100 [pkt; pkt] p)
    as (new & Htr & _ & _ & _ & Hsame).
  exists new. split; [exact Htr|].
  refine (proj1 (Hsame (Addr "10.0.0.1" 9) _)).
  intros q Hq.
  apply elem_of_cons in Hq as [->|Hq]; [reflexivity|].
  apply elem_of_cons in Hq as [->|Hq]; [reflexivity|].
  apply elem_of_nil in Hq. destruct Hq.
Defined.

(** ** The acceptor *)

Lemma accept_app (now : Z) (pre post : list accept_round) (dest : tcpDest) :
  accept now (pre ++ post) dest =
    match accept now pre dest with
    | (AcceptorAccepting, d, evs) =>
        let '(st, d', evs') := accept now post d in (st, d', evs ++ evs')
    | r => r
    end.
Proof.
  revert dest; induction pre as [|[[acceptedEp remote|e] dial] pre IH]; intros dest;
    cbn [app accept].
  - destruct (accept now post dest) as [[st d] evs]. reflexivity.
  - destruct dial as [up|err]; [|reflexivity].
    cbn. rewrite IH.
    destruct (accept now pre _) as [[[] d] evs]; [reflexivity|].
    destruct (accept now post d) as [[st' d'] evs']. reflexivity.
  - destruct (decide (e = ErrWouldBlock)); [|reflexivity].
    rewrite IH.
    destruct (accept now pre dest) as [[[] d] evs]; [reflexivity|].
    destruct (accept now post d) as [[st' d'] evs']. reflexivity.
Qed.

Lemma accept_dest_addr (now : Z) (script : list accept_round) (dest : tcpDest) :
  dest_addr (snd (fst (accept now script dest))) = dest_addr dest.
Proof.
  revert dest; induction script as [|[[acceptedEp remote|e] dial] script IH];
    intros dest; cbn [accept]; [reflexivity| |].
  - destruct dial as [up|err]; [|reflexivity].
    cbn. specialize (IH (set_conns
      (<[remote := set_ep (Some acceptedEp)
           (markActive now (mkBaseConn acceptedEp 0 (Some up) None
              (mkCloseable Open
                 (FinBaseConn (Some (FinCaller (mkCallerFinalizer acceptedEp None))))
                 None)))]> (conns dest)) dest)).
    destruct (accept now script _) as [[st d] evs]. exact IH.
  - destruct (decide (e = ErrWouldBlock)); [|reflexivity].
    specialize (IH dest). destruct (accept now script dest) as [[st d] evs]. exact IH.
Qed.

(** C6: a WouldBlock from [Accept] makes the acceptor wait on the
    notifier of the destination and call [Accept] again; and when, after
    any number of rounds that leave it running, the dial for an accepted
    flow fails, the acceptor dials, logs the failure and ends: the
    destination, and with it its map of connections, is as it was
    before that accept, no pump is started for the flow, and what the
    environment would answer next is never asked for. *)
Theorem accept_wouldblock_and_dial_failure (now : Z) (pre rest : list accept_round)
    (dest : tcpDest) (acceptedEp : N) (remote : FullAddress) (err : go_error)
    (dial : dial_result) :
  accept now ((AcceptErr ErrWouldBlock, dial) :: rest) dest =
    (fst (fst (accept now rest dest)), snd (fst (accept now rest dest)),
     EvWaitNotify (dest_id dest) :: snd (accept now rest dest)) /\
  (fst (fst (accept now pre dest)) = AcceptorAccepting ->
   accept now (pre ++ (AcceptOk acceptedEp remote, DialErr err) :: rest) dest =
     (AcceptorReturned,
      snd (fst (accept now pre dest)),
      snd (accept now pre dest) ++
        [EvDialTCP (dest_addr dest);
         EvLog LevelError "Unexpected error dialing upstream to %v: %v"])).
Proof.
  split.
  - cbn [accept]. destruct (decide (ErrWouldBlock = ErrWouldBlock)); [|congruence].
    destruct (accept now rest dest) as [[st d] evs]. reflexivity.
  - intros Hrun. rewrite accept_app.
    pose proof (accept_dest_addr now pre dest) as Haddr.
    destruct (accept now pre dest) as [[st d] evs]. cbn [fst snd] in *.
    subst st. cbn [accept]. rewrite Haddr. reflexivity.
Qed.

(** One accepted flow whose dial succeeds, then one whose dial fails:
    only the first is in the map. *)
Lemma accept_wouldblock_and_dial_failure_witness :
  let dest := mkTcpDest (mkBaseConn 1 0 None (Some 1%N)
                           (mkCloseable Open (FinBaseConn None) None))
                        "10.0.0.1:9" ∅ in
  let a1 := mkFullAddress 1 "192.168.0.2" 40000 in
  let a2 := mkFullAddress 1 "192.168.0.2" 40001 in
  let script := [(AcceptErr ErrWouldBlock, DialErr io_EOF);
                 (AcceptOk 11 a1, DialOk (mkUpstream 21 None))] in
  accept 100 (script ++ [(AcceptOk 12 a2, DialErr (PlainError "refused"))]) dest =
    (AcceptorReturned,
     snd (fst (accept 100 script dest)),
     snd (accept 100 script dest) ++
       [EvDialTCP "10.0.0.1:9";
        EvLog LevelError "Unexpected error dialing upstream to %v: %v"]) /\
  conns (snd (fst (accept 100 script dest))) !! a2 = None /\
  is_Some (conns (snd (fst (accept 100 script dest))) !! a1).
Proof.
  intros dest a1 a2 script.
  split.
  - exact (proj2 (accept_wouldblock_and_dial_failure 100 script [] dest 12 a2
                    (PlainError "refused") (DialErr io_EOF)) eq_refl).
  - split; [vm_compute; reflexivity|]. vm_compute. eexists. reflexivity.
Defined.

(** ** The carrier reader *)

Section ReaderProps.

Variable parseIPPacket : list Byte.byte -> option ipPacket.

(** Running a script in two parts, the loop being about to read where
    they meet. *)
Lemma readLoop_app (pre post : list carrier_round) (p : proxy) :
  fst (readLoop parseIPPacket pre p) = ReaderReading ->
  readLoop parseIPPacket (pre ++ post) p =
    readLoop parseIPPacket post (snd (readLoop parseIPPacket pre p)).
Proof.
  revert p; induction pre as [|r pre IH]; intros p; [reflexivity|].
  cbn [app readLoop].
  destruct (cr_read r) as [bytes|err].
  - destruct (parseIPPacket bytes) as [pkt|]; [|apply IH].
    destruct (length _ <? pktInCapacity)%nat; [apply IH|discriminate].
  - destruct (decide (err = io_EOF)); discriminate.
Qed.

(** Frames read while the queue has room for the parsed ones. *)
Lemma readLoop_frames (frames : list (list Byte.byte)) (p : proxy) :
  (length (pktIn p) + length (omap parseIPPacket frames) <= pktInCapacity)%nat ->
  let run := readLoop parseIPPacket (frame_round <$> frames) p in
  fst run = ReaderReading /\
  pktIn (snd run) = pktIn p ++ omap parseIPPacket frames /\
  rejectedPackets (snd run) =
    rejectedPackets p
      + Z.of_nat (length (filter (fun b => parseIPPacket b = None) frames)) /\
  acceptedPackets (snd run) = acceptedPackets p /\
  tcpConnTrack (snd run) = tcpConnTrack p.
Proof.
  cbn zeta. revert p; induction frames as [|b frames IH]; intros p Hcap.
  - cbn. rewrite Z.add_0_r, app_nil_r. repeat split; reflexivity.
  - cbn [fmap list_fmap frame_round readLoop cr_read cr_received].
    rewrite filter_cons. cbn [omap list_omap] in Hcap |- *.
    change (drop 0 (pktIn p)) with (pktIn p).
    destruct (parseIPPacket b) as [pkt|] eqn:Hb.
    + destruct (decide (Some pkt = None)) as [|_]; [discriminate|].
      cbn [length] in Hcap. cbn [pktIn set_pktIn].
      destruct (Nat.ltb_spec (length (pktIn p)) pktInCapacity) as [_|Hge]; [|lia].
      destruct (IH (set_pktIn (pktIn p ++ [pkt]) (set_pktIn (pktIn p) p)))
        as (Hs & Hq & Hr & Ha & Ht).
      { cbn [pktIn set_pktIn]. rewrite length_app. cbn [length]. lia. }
      rewrite Hs, Hq, Hr, Ha, Ht. cbn [pktIn set_pktIn rejectedPackets acceptedPackets
        tcpConnTrack]. rewrite <- app_assoc. repeat split; reflexivity.
    + destruct (decide (None = None)) as [_|]; [|congruence].
      destruct (IH (rejectedPacket
                      (emit [EvLog LevelDebug "Error on inbound packet, ignoring: %v"]
                         (set_pktIn (pktIn p) p))))
        as (Hs & Hq & Hr & Ha & Ht).
      { exact Hcap. }
      rewrite Hs, Hq, Hr, Ha, Ht. cbn [length]. cbn -[Z.of_nat].
      repeat split; try reflexivity. lia.
Qed.


End ReaderProps.



(** ** The demultiplexer *)

Section DemuxProps.

Variable stackEnv : N -> addr -> option start_failure.
Variable live : N -> gmap FullAddress baseConn -> gmap FullAddress baseConn.
Variable onUDP : ipPacket -> proxy -> proxy.
Variable reapUDP : proxy -> proxy.

Lemma demux_packet_unknown (now : Z) (pkt : ipPacket) (p : proxy) :
  ipProto pkt <> IPProtocolTCP ->
  ipProto pkt <> IPProtocolUDP ->
  ipProto pkt <> IPProtocolICMP ->
  demux_packet stackEnv onUDP now pkt p =
    emit [EvLog LevelDebug "Unknown IP protocol, ignoring: %v"] (rejectedPacket p).
Proof.
  intros Ht Hu Hi. unfold demux_packet.
  destruct (decide (ipProto pkt = IPProtocolTCP)); [contradiction|].
  destruct (decide (ipProto pkt = IPProtocolUDP)); [contradiction|].
  destruct (decide (ipProto pkt = IPProtocolICMP)); [contradiction|].
  reflexivity.
Qed.

(** C8: packets whose protocol is none of TCP, UDP and ICMP, however
    many arrive in a row: each adds exactly 1 to the rejected counter;
    the accepted counter, both origin maps and the NIC counter stay
    as they were; the only effects are debug log lines, so nothing is
    injected into any stack and nothing is started; and the
    demultiplexer is back at its select. *)
Theorem demux_unknown_protocol (n : nat) (now : Z) (pkts : list ipPacket) (p : proxy) :
  (forall pkt, pkt ∈ pkts ->
     ipProto pkt <> IPProtocolTCP /\ ipProto pkt <> IPProtocolUDP /\
     ipProto pkt <> IPProtocolICMP) ->
  let run := copyToUpstream stackEnv live onUDP reapUDP n now (SelPkt <$> pkts) p in
  fst (fst run) = DemuxSelecting /\
  snd run = [] /\
  rejectedPackets (snd (fst run)) = rejectedPackets p + Z.of_nat (length pkts) /\
  acceptedPackets (snd (fst run)) = acceptedPackets p /\
  tcpConnTrack (snd (fst run)) = tcpConnTrack p /\
  udpConns (snd (fst run)) = udpConns p /\
  nicSeq (snd (fst run)) = nicSeq p /\
  trace (snd (fst run)) = trace p ++
    replicate (length pkts) (EvLog LevelDebug "Unknown IP protocol, ignoring: %v").
Proof.
  cbn zeta. revert p; induction pkts as [|pkt pkts IH]; intros p Hun.
  - cbn. rewrite Z.add_0_r, app_nil_r. repeat split; reflexivity.
  - cbn [fmap list_fmap copyToUpstream].
    destruct (Hun pkt) as (Ht & Hu & Hi); [left|].
    rewrite (demux_packet_unknown now pkt p Ht Hu Hi).
    destruct (IH (emit [EvLog LevelDebug "Unknown IP protocol, ignoring: %v"]
                    (rejectedPacket p)))
      as (Hs & Hrest & Hr & Ha & Hm & Hud & Hn & Htr).
    { intros q Hq. apply Hun. right. exact Hq. }
    rewrite Hs, Hrest, Hr, Ha, Hm, Hud, Hn, Htr.
    cbn [length replicate]. cbn -[Z.of_nat replicate].
    rewrite <- app_assoc. cbn [app].
    repeat split; try reflexivity. lia.
Qed.

End DemuxProps.

(** A packet with protocol 99 on a fresh proxy. *)
Lemma demux_unknown_protocol_witness :
  let pkt := mkPacket 99 (FourTuple (Addr "192.168.0.2" 0) (Addr "10.0.0.3" 0))
                      [Byte.x45] in
  let run := copyToUpstream (fun _ _ => None) (fun _ m => m) (fun _ p => p)
               (fun p => p) 1 0 [SelPkt pkt] (newProxy (ApplyDefaults None)) in
  fst (fst run) = DemuxSelecting /\
  rejectedPackets (snd (fst run)) = 1 /\
  acceptedPackets (snd (fst run)) = 0 /\
  tcpConnTrack (snd (fst run)) = ∅.
Proof.
  intros pkt run.
  destruct (demux_unknown_protocol (fun _ _ => None) (fun _ m => m) (fun _ p => p)
              (fun p => p) 1 0 [pkt] (newProxy (ApplyDefaults None)))
    as (Hs & _ & Hr & Ha & Hm & _).
  - intros q Hq. apply elem_of_cons in Hq as [->|Hq].
    + repeat split; vm_compute; discriminate.
    + apply elem_of_nil in Hq. destruct Hq.
  - exact (conj Hs (conj Hr (conj Ha Hm))).
Defined.

(** ** The reaper *)

Lemma sleeps_app (a b : list event) : sleeps (a ++ b) = sleeps a ++ sleeps b.
Proof. apply omap_app. Qed.

Lemma spawned_app (a b : list event) : spawned (a ++ b) = spawned a ++ spawned b.
Proof. apply omap_app. Qed.

Lemma sleeps_go (l : list baseConn) :
  sleeps ((fun conn => EvGo (GoConnClose (conn_id conn))) <$> l) = [].
Proof. induction l as [|c l IH]; [reflexivity|exact IH]. Qed.

Lemma Close_no_sleep (c : baseConn) : sleeps (snd (fst (Close c))) = [].
Proof.
  unfold Close, run_finalizer, baseConn_finalizer, run_innerFinalizer,
    run_callerFinalizer.
  destruct (closeState (conn_closeable c)); try reflexivity;
    destruct (finalizer (conn_closeable c)) as [|[[f|o [f|]]|]];
    destruct (upstream c), (ep c); reflexivity.
Qed.

Section ReaperProps.

Variable live : N -> gmap FullAddress baseConn -> gmap FullAddress baseConn.

Lemma reapTCP_dest_sleeps (now : Z) (p : proxy) (entry : addr * tcpDest) :
  sleeps (trace (reapTCP_dest live now p entry)) = sleeps (trace p).
Proof.
  destruct entry as [a dest]. unfold reapTCP_dest.
  destruct (0 <? length (snd <$> map_to_list (conns dest)))%nat.
  - rewrite !trace_emit, !sleeps_app. cbn [sleeps omap list_omap].
    change (omap _ ?l) with (sleeps l).
    rewrite sleeps_go, !app_nil_r. reflexivity.
  - destruct (timeSinceLastActive now (dest_base dest) >? _).
    + rewrite !trace_emit. cbn [trace set_tcpConnTrack].
      rewrite !trace_emit, !sleeps_app. cbn [sleeps omap list_omap].
      change (omap _ ?l) with (sleeps l).
      rewrite Close_no_sleep, !app_nil_r. reflexivity.
    + rewrite trace_emit, sleeps_app, app_nil_r. reflexivity.
Qed.

Lemma reapTCP_pass_sleeps (now : Z) (p : proxy) :
  sleeps (trace (reapTCP_pass live now p)) = sleeps (trace p).
Proof.
  unfold reapTCP_pass.
  set (p1 := emit _ p).
  assert (H1 : sleeps (trace p1) = sleeps (trace p))
    by (unfold p1; rewrite trace_emit, sleeps_app, app_nil_r; reflexivity).
  rewrite <- H1.
  generalize (map_to_list (tcpConnTrack p1)). clear H1. generalize p1.
  intros q l; revert q; induction l as [|entry l IH]; intros q; [reflexivity|].
  cbn [foldl]. rewrite IH. apply reapTCP_dest_sleeps.
Qed.

Lemma reapTCP_running (n : nat) (now : Z) (p : proxy) :
  exists p',
    reapTCP live n now p = LoopRunning p' /\
    sleeps (trace p') = sleeps (trace p) ++ replicate n (1 * Second).
Proof.
  revert now p; induction n as [|n IH]; intros now p.
  - exists p. rewrite app_nil_r. split; reflexivity.
  - cbn [reapTCP].
    destruct (IH (now + 1 * Second)
                 (reapTCP_pass live (now + 1 * Second) (emit [EvSleep (1 * Second)] p)))
      as (p' & Hrun & Hsl).
    exists p'. split; [exact Hrun|].
    rewrite Hsl, reapTCP_pass_sleeps, trace_emit, sleeps_app, <- app_assoc.
    reflexivity.
Qed.

(** The range over [dest.conns] is made after [connsMx] was
    released: whenever the copy is not empty, the visit of the
    destination accesses the map without its mutex. *)
Lemma reapTCP_dest_unguarded (now : Z) (p : proxy) (a : addr) (dest : tcpDest) :
  conns dest <> ∅ ->
  exists new,
    trace (reapTCP_dest live now p (a, dest)) = trace p ++ new /\
    guarded new = false /\
    spawned new =
      (fun conn => GoConnClose (conn_id conn)) <$>
        filter (fun conn => IdleTimeout (opts p) < timeSinceLastActive now conn)
               (snd <$> map_to_list (live (dest_id dest) (conns dest))).
Proof.
  intros Hne. unfold reapTCP_dest.
  destruct (map_to_list (conns dest)) as [|kv l] eqn:Hl.
  { apply map_to_list_empty_iff in Hl. contradiction. }
  cbn [fmap list_fmap length Nat.ltb Nat.leb].
  eexists. split; [rewrite !trace_emit, <- app_assoc; reflexivity|].
  split.
  - unfold guarded. apply bool_decide_eq_false. cbn [app locks].
    rewrite (bool_decide_eq_false_2 (connsMx (dest_id dest) ∈ [])) by set_solver.
    rewrite (bool_decide_eq_true_2 (connsMx (dest_id dest) ∈ [connsMx (dest_id dest)]))
      by set_solver.
    rewrite filter_cons. destruct (decide _) as [Hd|_]; [congruence|].
    rewrite filter_nil.
    rewrite (bool_decide_eq_false_2 (connsMx (dest_id dest) ∈ [])) by set_solver.
    discriminate.
  - cbn [app spawned omap list_omap]. cbn [emit set_trace opts].
    generalize (filter (fun conn => IdleTimeout (opts p) < timeSinceLastActive now conn)
                  (snd <$> map_to_list (live (dest_id dest) (conns dest)))).
    intros cs. induction cs as [|c cs IH]; [reflexivity|].
    cbn [fmap list_fmap omap list_omap]. f_equal. exact IH.
Qed.

End ReaperProps.

(** C1, against the code: [reapTCP] does not return.  Observed for any
    number [n] of iterations, from any state, it is still in its loop,
    having slept [n] times one second; so the demultiplexer that calls
    it from the ticker case stays inside that call, and whatever fires
    afterwards, the close signal included, is never selected. *)
Theorem reapTCP_never_returns
    (stackEnv : N -> addr -> option start_failure)
    (live : N -> gmap FullAddress baseConn -> gmap FullAddress baseConn)
    (onUDP : ipPacket -> proxy -> proxy) (reapUDP : proxy -> proxy)
    (n : nat) (now : Z) (rest : list select_case) (p : proxy) :
  exists p',
    reapTCP live n now p = LoopRunning p' /\
    sleeps (trace p') = sleeps (trace p) ++ replicate n (1 * Second) /\
    copyToUpstream stackEnv live onUDP reapUDP n now (SelTick :: rest) p =
      (DemuxInReapTCP, p', rest).
Proof.
  destruct (reapTCP_running live n now p) as (p' & Hrun & Hsl).
  exists p'. split; [exact Hrun|]. split; [exact Hsl|].
  cbn [copyToUpstream]. rewrite Hrun. reflexivity.
Qed.

(** C3, against the code, on two destinations visited 100 s after they
    were last active, with the default idle timeout of 65 s.

    The first has one idle connection, [c1].  The reaper copies the
    connections under [connsMx] and then ranges over [dest.conns]
    itself, with the mutex released: the trace of the visit is not
    guarded.  What it closes is what the map holds at that moment: when
    the finalizer of [c1] has removed it in between, nothing is closed
    although the copy holds [c1]; without interference [c1] is closed
    in a goroutine of its own.

    The second has no connection: it is deleted from the destination
    map under the mutex of the map, and then closed by a plain call,
    which the reaper waits for: no goroutine is started. *)
Theorem reapTCP_dest_ranges_live_map_and_blocks :
  let now := 100 * Second in
  let k := Addr "10.0.0.1" 9 in
  let a1 := mkFullAddress 1 "192.168.0.2" 40000 in
  let c1 := mkBaseConn 11 0 (Some (mkUpstream 21 None)) (Some 11%N)
              (mkCloseable Open
                 (FinBaseConn (Some (FinCaller (mkCallerFinalizer 11 None)))) None) in
  let base := mkBaseConn 1 0 None (Some 1%N) (mkCloseable Open (FinBaseConn None) None) in
  let busy := mkTcpDest base "10.0.0.1:9" {[ a1 := c1 ]} in
  let empty := mkTcpDest base "10.0.0.1:9" ∅ in
  let p1 := set_tcpConnTrack {[ k := busy ]} (newProxy (ApplyDefaults None)) in
  let p2 := set_tcpConnTrack {[ k := empty ]} (newProxy (ApplyDefaults None)) in
  let unchanged := fun (_ : N) (m : gmap FullAddress baseConn) => m in
  let removed := fun (_ : N) (_ : gmap FullAddress baseConn) =>
                   (∅ : gmap FullAddress baseConn) in
  trace (reapTCP_dest unchanged now p1 (k, busy)) =
    [EvLock (connsMx 1); EvAccess (connsMx 1); EvUnlock (connsMx 1);
     EvAccess (connsMx 1); EvGo (GoConnClose 11)] /\
  guarded (trace (reapTCP_dest unchanged now p1 (k, busy))) = false /\
  spawned (trace (reapTCP_dest removed now p1 (k, busy))) = [] /\
  trace (reapTCP_dest unchanged now p2 (k, empty)) =
    [EvLock (connsMx 1); EvAccess (connsMx 1); EvUnlock (connsMx 1);
     EvLock tcpConnTrackMx; EvAccess tcpConnTrackMx; EvUnlock tcpConnTrackMx;
     EvCloseBlocking 1; EvEventUnregister 1; EvEndpointClose 1] /\
  spawned (trace (reapTCP_dest unchanged now p2 (k, empty))) = [] /\
  tcpConnTrack (reapTCP_dest unchanged now p2 (k, empty)) = ∅.
Proof. vm_compute. repeat split. Qed.

(** * Further properties of the code *)

(** ** Options *)

(** X1: [ApplyDefaults] is idempotent, and what it returns has every
    numeric option positive and both dial functions set. *)
Theorem ApplyDefaults_idempotent (o : option Opts) :
  let d := ApplyDefaults o in
  ApplyDefaults (Some d) = d /\
  0 < MTU d /\ 0 < OutboundBufferDepth d /\ 0 < IdleTimeout d /\
  0 < TCPConnectBacklog d /\ 0 < StatsInterval d /\
  is_Some (DialTCP d) /\ is_Some (DialUDP d).
Proof.
  assert (Hpos : forall x dflt, 0 < dflt ->
            0 < (if x <=? 0 then dflt else x) /\
            (if (if x <=? 0 then dflt else x) <=? 0 then dflt
             else (if x <=? 0 then dflt else x)) = (if x <=? 0 then dflt else x)).
  { intros x dflt Hd. destruct (Z.leb_spec0 x 0).
    - split; [lia|]. destruct (Z.leb_spec0 dflt 0); [lia|reflexivity].
    - split; [lia|]. destruct (Z.leb_spec0 x 0); [lia|reflexivity]. }
  cbn zeta.
  set (o0 := match o with None => zeroOpts | Some o => o end).
  assert (Hd : ApplyDefaults o = ApplyDefaults (Some o0)) by (destruct o; reflexivity).
  rewrite Hd. clear Hd. destruct o0 as [m b i t s dt du].
  unfold ApplyDefaults. cbn [MTU OutboundBufferDepth IdleTimeout TCPConnectBacklog
    StatsInterval DialTCP DialUDP].
  destruct (Hpos m DefaultMTU) as [H1 E1]; [reflexivity|].
  destruct (Hpos b DefaultOutboundBufferDepth) as [H2 E2]; [reflexivity|].
  destruct (Hpos i DefaultIdleTimeout) as [H3 E3]; [reflexivity|].
  destruct (Hpos t DefaultTCPConnectBacklog) as [H4 E4]; [reflexivity|].
  destruct (Hpos s DefaultStatsInterval) as [H5 E5]; [reflexivity|].
  rewrite E1, E2, E3, E4, E5.
  destruct dt, du; repeat split; eauto.
Qed.

(** ** The endpoint write loop *)

Lemma waitTime_le (i : Z) : waitTime i <= maxWriteWait.
Proof.
  unfold waitTime.
  destruct (Z.gtb_spec (wrap64 (wrap64 (i * 1) * Millisecond)) maxWriteWait); lia.
Qed.

Lemma backoff_bounded (i : Z) :
  Forall (fun d => 0 < d <= maxWriteWait) (backoff i).
Proof.
  unfold backoff.
  destruct (Z.gtb_spec (waitTime i) 0); [|constructor].
  constructor; [|constructor]. split; [lia|apply waitTime_le].
Qed.

Lemma foldr_add_app (a b : list Z) :
  foldr Z.add 0 (a ++ b) = foldr Z.add 0 a + foldr Z.add 0 b.
Proof. induction a as [|x a IH]; cbn [app foldr]; lia. Qed.

Lemma backoff_total (i : Z) : 0 <= foldr Z.add 0 (backoff i) <= maxWriteWait.
Proof.
  pose proof (backoff_bounded i) as H. unfold backoff in *.
  destruct (waitTime i >? 0).
  - apply Forall_cons in H as [H _]. cbn. lia.
  - cbn. unfold maxWriteWait, Millisecond. lia.
Qed.

(** X2: whatever the endpoint answers and whatever the counter is
    (past the overflow of [i * time.Millisecond] too), every sleep of
    the write loop is positive and at most 30 ms, and the time slept in
    total is at most 30 ms times the number of attempts. *)
Theorem writeLoop_sleep_bounded (script : list write_result) (b : list Byte.byte)
    (i : Z) :
  Forall (fun d => 0 < d <= 30 * Millisecond) (w_slept (writeLoop script b i)) /\
  0 <= foldr Z.add 0 (w_slept (writeLoop script b i))
    <= 30 * Millisecond * Z.of_nat (length script).
Proof.
  change (30 * Millisecond) with maxWriteWait.
  revert b i; induction script as [|[n|e] script IH]; intros b i;
    cbn [writeLoop length].
  - cbn. split; [constructor|lia].
  - destruct ((0 <=? n) && (n <=? Z.of_nat (length b))).
    2:{ cbn. split; [constructor|]. unfold maxWriteWait, Millisecond. lia. }
    destruct (drop (Z.to_nat n) b) as [|x b1].
    { cbn. split; [constructor|]. unfold maxWriteWait, Millisecond. lia. }
    cbn [w_slept]. destruct (IH (x :: b1) (wrap64 (i + 1))) as [H1 H2].
    split; [exact H1|]. unfold maxWriteWait, Millisecond in *. lia.
  - destruct (decide (e = ErrWouldBlock)).
    2:{ cbn. split; [constructor|]. unfold maxWriteWait, Millisecond. lia. }
    cbn [w_slept]. destruct (IH b (wrap64 (i + 1))) as [H1 H2].
    split; [apply Forall_app; split; [apply backoff_bounded|exact H1]|].
    rewrite foldr_add_app. pose proof (backoff_total i).
    unfold maxWriteWait, Millisecond in *. lia.
Qed.

(** X3: at every point of the write loop the bytes delivered so far
    are a prefix of the input, and while the loop runs the slice it
    offers next is exactly the rest of the input. *)
Theorem writeLoop_delivers_prefix (script : list write_result) (b : list Byte.byte)
    (i : Z) :
  exists rest,
    w_delivered (writeLoop script b i) ++ rest = b /\
    (forall b' i', w_outcome (writeLoop script b i) = WRunning b' i' -> rest = b') /\
    (w_outcome (writeLoop script b i) = WReturned None -> rest = []).
Proof.
  pose proof (writeLoop_invariant script b i) as H. unfold write_invariant in H.
  destruct (w_outcome (writeLoop script b i)) as [[e|]| |b1 i1].
  - destruct H as [_ (r & Hr & _)]. exists r. split; [exact Hr|].
    split; intros; discriminate.
  - exists []. rewrite app_nil_r. split; [exact H|]. split; [intros; discriminate|auto].
  - destruct H as (r & Hr & _). exists r. split; [exact Hr|]. split; intros; discriminate.
  - destruct H as [Hr _]. exists b1. split; [exact Hr|].
    split; [intros b' i' [= <- _]; reflexivity|intros; discriminate].
Qed.

(** X4: an error other than WouldBlock ends the write loop at once: the
    error is returned as it is, nothing is delivered or slept after
    it, and the endpoint is not called again.  A byte count below 0 or
    above the length of the slice offered makes [b[n:]] panic. *)
Theorem writeToDownstream_hard_error (pre rest : list write_result)
    (b b' : list Byte.byte) (i : Z) (e : tcpip_error) (n : Z) :
  w_outcome (writeToDownstream pre b) = WRunning b' i ->
  (e <> ErrWouldBlock ->
   writeToDownstream (pre ++ WriteErr e :: rest) b =
     mkWriteRun (WReturned (Some e)) (w_delivered (writeToDownstream pre b))
                (w_slept (writeToDownstream pre b))) /\
  (n < 0 \/ Z.of_nat (length b') < n ->
   writeToDownstream (pre ++ WriteOk n :: rest) b =
     mkWriteRun WPanic (w_delivered (writeToDownstream pre b))
                (w_slept (writeToDownstream pre b))).
Proof.
  unfold writeToDownstream. intros Hrun. split.
  - intros He. rewrite writeLoop_app, Hrun. cbn [writeLoop].
    destruct (decide (e = ErrWouldBlock)); [contradiction|].
    cbn. rewrite !app_nil_r. reflexivity.
  - intros Hn. rewrite writeLoop_app, Hrun. cbn [writeLoop].
    assert (Hb : (0 <=? n) && (n <=? Z.of_nat (length b')) = false).
    { destruct (Z.leb_spec0 0 n); [|reflexivity].
      destruct (Z.leb_spec0 n (Z.of_nat (length b'))); [lia|reflexivity]. }
    rewrite Hb. cbn. rewrite !app_nil_r. reflexivity.
Qed.

(** A write that takes one byte of two, then a closed endpoint. *)
Lemma writeToDownstream_hard_error_witness :
  writeToDownstream ([WriteOk 1] ++ [WriteErr ErrClosedForReceive; WriteOk 1])
                    [Byte.x01; Byte.x02] =
    mkWriteRun (WReturned (Some ErrClosedForReceive)) [Byte.x01] [] /\
  writeToDownstream ([WriteOk 1] ++ [WriteOk 2]) [Byte.x01; Byte.x02] =
    mkWriteRun WPanic [Byte.x01] [].
Proof.
  destruct (writeToDownstream_hard_error [WriteOk 1] [WriteOk 1]
              [Byte.x01; Byte.x02] [Byte.x02] 1 ErrClosedForReceive 2 eq_refl)
    as [He _].
  destruct (writeToDownstream_hard_error [WriteOk 1] []
              [Byte.x01; Byte.x02] [Byte.x02] 1 ErrClosedForReceive 2 eq_refl)
    as [_ Hp].
  split.
  - apply He. discriminate.
  - apply Hp. right. vm_compute. reflexivity.
Defined.

(** ** The acceptor *)




(** ** onTCP: what is injected *)

Lemma injected_app (a b : list event) : injected (a ++ b) = injected a ++ injected b.
Proof. apply omap_app. Qed.

Lemma injectedICMP_app (a b : list event) :
  injectedICMP (a ++ b) = injectedICMP a ++ injectedICMP b.
Proof. apply omap_app. Qed.

(** Bring the trace of a state built by setters into the form
    [trace p ++ ...] and distribute the projections of the trace. *)
Ltac trace_norm :=
  repeat (progress
    (cbn [trace tcpConnTrack nicSeq acceptedPackets rejectedPackets
          emit set_trace set_nicSeq set_tcpConnTrack];
     rewrite ?injected_app, ?acceptors_app, ?injectedICMP_app)).

Section OnTCPInject.

Variable stackEnv : N -> addr -> option start_failure.
Variable now : Z.

Lemma onTCP_present (pkt : ipPacket) (p : proxy) (d : tcpDest) :
  tcpConnTrack p !! dst (ft pkt) = Some d ->
  tcpConnTrack (onTCP stackEnv now pkt p) = tcpConnTrack p /\
  nicSeq (onTCP stackEnv now pkt p) = nicSeq p /\
  injected (trace (onTCP stackEnv now pkt p)) = injected (trace p) ++ [raw pkt].
Proof.
  intros Hk. unfold onTCP. cbn [tcpConnTrack emit set_trace]. rewrite Hk.
  cbn [tcpConnTrack nicSeq trace emit set_trace].
  rewrite !injected_app. cbn. rewrite app_nil_r. repeat split; reflexivity.
Qed.

Lemma onTCP_started (pkt : ipPacket) (p : proxy) :
  tcpConnTrack p !! dst (ft pkt) = None ->
  stackEnv (nicSeq p + 1)%N (dst (ft pkt)) = None ->
  exists d,
    dest_id d = (nicSeq p + 1)%N /\
    dest_addr d = addr_String (dst (ft pkt)) /\
    tcpConnTrack (onTCP stackEnv now pkt p) = <[dst (ft pkt) := d]> (tcpConnTrack p) /\
    nicSeq (onTCP stackEnv now pkt p) = (nicSeq p + 1)%N /\
    injected (trace (onTCP stackEnv now pkt p)) = injected (trace p) ++ [raw pkt].
Proof.
  intros Hk Henv. unfold onTCP, startTCPDest.
  cbn [tcpConnTrack nicSeq emit set_trace set_nicSeq]. rewrite Hk, Henv.
  cbn [newBaseConn emit set_trace set_tcpConnTrack tcpConnTrack nicSeq trace].
  eexists. split; [|split; [|split; [reflexivity|split; [reflexivity|]]]].
  3:{ trace_norm. cbn. rewrite !app_nil_r. reflexivity. }
  - reflexivity.
  - reflexivity.
Qed.

(** X6: when the key is absent and a stack call of [startTCPDest]
    fails, the packet is dropped: nothing is injected, no acceptor is
    started, the map is as before and the error is the last thing
    logged; the NIC id is used up all the same.  The next packet for
    the destination tries again with the next NIC id, and when that
    start succeeds the destination is installed and that packet, not
    the dropped one, is injected. *)
Theorem onTCP_start_failure_then_retry (pkt pkt' : ipPacket) (p : proxy)
    (f : start_failure) :
  tcpConnTrack p !! dst (ft pkt) = None ->
  stackEnv (nicSeq p + 1)%N (dst (ft pkt)) = Some f ->
  let p1 := onTCP stackEnv now pkt p in
  tcpConnTrack p1 = tcpConnTrack p /\
  nicSeq p1 = (nicSeq p + 1)%N /\
  injected (trace p1) = injected (trace p) /\
  acceptors (trace p1) = acceptors (trace p) /\
  last (trace p1) = Some (EvLog LevelError "%v") /\
  (dst (ft pkt') = dst (ft pkt) ->
   stackEnv (nicSeq p + 2)%N (dst (ft pkt)) = None ->
   exists d,
     dest_id d = (nicSeq p + 2)%N /\
     tcpConnTrack (onTCP stackEnv now pkt' p1) !! dst (ft pkt) = Some d /\
     injected (trace (onTCP stackEnv now pkt' p1)) = injected (trace p) ++ [raw pkt']).
Proof.
  intros Hk Henv. cbn zeta.
  assert (H1 : tcpConnTrack (onTCP stackEnv now pkt p) = tcpConnTrack p /\
               nicSeq (onTCP stackEnv now pkt p) = (nicSeq p + 1)%N /\
               injected (trace (onTCP stackEnv now pkt p)) = injected (trace p) /\
               acceptors (trace (onTCP stackEnv now pkt p)) = acceptors (trace p) /\
               last (trace (onTCP stackEnv now pkt p)) = Some (EvLog LevelError "%v")).
  { unfold onTCP, startTCPDest.
    cbn [tcpConnTrack nicSeq emit set_trace set_nicSeq]. rewrite Hk, Henv.
    destruct f;
      cbn [newBaseConn run_finalizer fst emit set_trace set_tcpConnTrack
           tcpConnTrack nicSeq trace];
      trace_norm;
      (split; [reflexivity|]); (split; [reflexivity|]);
      (split; [cbn; rewrite ?app_nil_r; reflexivity|]);
      (split; [cbn; rewrite ?app_nil_r; reflexivity|]);
      apply last_snoc. }
  destruct H1 as (Hm & Hn & Hi & Ha & Hl).
  repeat split; try assumption.
  intros Hsame Henv2.
  destruct (onTCP_started pkt' (onTCP stackEnv now pkt p)) as (d & Hid & _ & Hmap & _ & Hinj).
  - rewrite Hm, Hsame. exact Hk.
  - rewrite Hn, Hsame. replace (nicSeq p + 1 + 1)%N with (nicSeq p + 2)%N by lia.
    exact Henv2.
  - exists d. split; [rewrite Hid, Hn; lia|].
    split; [rewrite Hmap, Hsame; apply lookup_insert_eq|].
    rewrite Hinj, Hi. reflexivity.
Qed.

(** X7: while no stack call fails, every packet handed to [onTCP] is
    injected, once, in the order of arrival, whether its destination
    was there or had to be started. *)
Theorem onTCP_injects_in_order (pkts : list ipPacket) (p : proxy) :
  (forall nic a, stackEnv nic a = None) ->
  injected (trace (foldl (fun p pkt => onTCP stackEnv now pkt p) p pkts))
    = injected (trace p) ++ (raw <$> pkts).
Proof.
  intros Henv. revert p; induction pkts as [|pkt pkts IH]; intros p; cbn [foldl].
  - cbn. rewrite app_nil_r. reflexivity.
  - rewrite IH. cbn [fmap list_fmap].
    destruct (tcpConnTrack p !! dst (ft pkt)) as [d|] eqn:Hk.
    + destruct (onTCP_present pkt p d Hk) as (_ & _ & ->).
      rewrite <- app_assoc. reflexivity.
    + destruct (onTCP_started pkt p Hk (Henv _ _)) as (d & _ & _ & _ & _ & ->).
      rewrite <- app_assoc. reflexivity.
Qed.

End OnTCPInject.

(** The first NIC fails to be created, the second starts. *)
Lemma onTCP_start_failure_then_retry_witness :
  let env := fun (nic : N) (_ : addr) =>
               if decide (nic = 1%N) then Some FailCreateNIC else None in
  let pkt := mkPacket 6 (FourTuple (Addr "192.168.0.2" 40000) (Addr "10.0.0.1" 9))
                      [Byte.x45] in
  let pkt' := mkPacket 6 (FourTuple (Addr "192.168.0.2" 40000) (Addr "10.0.0.1" 9))
                       [Byte.x46] in
  let p := newProxy (ApplyDefaults None) in
  injected (trace (onTCP env 100 pkt p)) = [] /\
  exists d,
    dest_id d = 2%N /\
    tcpConnTrack (onTCP env 100 pkt' (onTCP env 100 pkt p)) !! Addr "10.0.0.1" 9
      = Some d /\
    injected (trace (onTCP env 100 pkt' (onTCP env 100 pkt p))) = [[Byte.x46]].
Proof.
  intros env pkt pkt' p.
  destruct (onTCP_start_failure_then_retry env 100 pkt pkt' p FailCreateNIC
              eq_refl eq_refl) as (_ & _ & Hi & _ & _ & Hretry).
  split; [exact Hi|]. exact (Hretry eq_refl eq_refl).
Defined.

(** Three packets to two destinations on a stack that never fails. *)
Lemma onTCP_injects_in_order_witness :
  let q1 := mkPacket 6 (FourTuple (Addr "192.168.0.2" 40000) (Addr "10.0.0.1" 9))
                     [Byte.x01] in
  let q2 := mkPacket 6 (FourTuple (Addr "192.168.0.2" 40000) (Addr "10.0.0.2" 9))
                     [Byte.x02] in
  let q3 := mkPacket 6 (FourTuple (Addr "192.168.0.2" 40001) (Addr "10.0.0.1" 9))
                     [Byte.x03] in
  injected (trace (foldl (fun p pkt => onTCP (fun _ _ => None) 100 pkt p)
                         (newProxy (ApplyDefaults None)) [q1; q2; q3]))
    = [[Byte.x01]; [Byte.x02]; [Byte.x03]].
Proof.
  intros q1 q2 q3.
  exact (onTCP_injects_in_order (fun _ _ => None) 100 [q1; q2; q3]
           (newProxy (ApplyDefaults None)) (fun _ _ => eq_refl)).
Defined.

(** ** The demultiplexer: counting and closing *)

Lemma onTCP_counters (stackEnv : N -> addr -> option start_failure) (now : Z)
    (pkt : ipPacket) (p : proxy) :
  acceptedPackets (onTCP stackEnv now pkt p) = acceptedPackets p /\
  rejectedPackets (onTCP stackEnv now pkt p) = rejectedPackets p /\
  injectedICMP (trace (onTCP stackEnv now pkt p)) = injectedICMP (trace p).
Proof.
  unfold onTCP, startTCPDest.
  destruct (tcpConnTrack _ !! _).
  - trace_norm. cbn. rewrite !app_nil_r. repeat split; reflexivity.
  - destruct (stackEnv _ _) as [[]|];
      cbn [newBaseConn run_finalizer fst]; trace_norm; cbn;
      rewrite !app_nil_r; repeat split; reflexivity.
Qed.

Section DemuxCount.

Variable stackEnv : N -> addr -> option start_failure.
Variable live : N -> gmap FullAddress baseConn -> gmap FullAddress baseConn.
Variable onUDP : ipPacket -> proxy -> proxy.
Variable reapUDP : proxy -> proxy.

Lemma copyToUpstream_packets (n : nat) (now : Z) (pkts : list ipPacket)
    (tail : list select_case) (p : proxy) :
  copyToUpstream stackEnv live onUDP reapUDP n now ((SelPkt <$> pkts) ++ tail) p =
    copyToUpstream stackEnv live onUDP reapUDP n now tail
      (foldl (fun p pkt => demux_packet stackEnv onUDP now pkt p) p pkts).
Proof.
  revert p; induction pkts as [|pkt pkts IH]; intros p; [reflexivity|].
  cbn [fmap list_fmap app copyToUpstream foldl]. apply IH.
Qed.

Lemma demux_packet_counts (now : Z) (pkt : ipPacket) (p : proxy) :
  ipProto pkt <> IPProtocolUDP ->
  let p' := demux_packet stackEnv onUDP now pkt p in
  let ok := bool_decide (ipProto pkt = IPProtocolTCP \/ ipProto pkt = IPProtocolICMP) in
  acceptedPackets p' = acceptedPackets p + (if ok then 1 else 0) /\
  rejectedPackets p' = rejectedPackets p + (if ok then 0 else 1) /\
  injectedICMP (trace p') =
    injectedICMP (trace p)
      ++ (if bool_decide (ipProto pkt = IPProtocolICMP) then [raw pkt] else []).
Proof.
  intros Hu. cbn zeta. unfold demux_packet.
  destruct (decide (ipProto pkt = IPProtocolTCP)) as [Ht|Ht].
  - destruct (onTCP_counters stackEnv now pkt (acceptedPacket p)) as (-> & -> & ->).
    rewrite bool_decide_eq_true_2 by (left; exact Ht).
    rewrite bool_decide_eq_false_2 by (rewrite Ht; discriminate).
    cbn. rewrite Z.add_0_r, app_nil_r. repeat split; reflexivity.
  - destruct (decide (ipProto pkt = IPProtocolUDP)) as [|_]; [contradiction|].
    destruct (decide (ipProto pkt = IPProtocolICMP)) as [Hi|Hi].
    + rewrite bool_decide_eq_true_2 by (right; exact Hi).
      rewrite bool_decide_eq_true_2 by exact Hi.
      trace_norm. cbn. rewrite Z.add_0_r. repeat split; reflexivity.
    + rewrite bool_decide_eq_false_2 by tauto.
      rewrite bool_decide_eq_false_2 by exact Hi.
      trace_norm. cbn. rewrite Z.add_0_r, !app_nil_r. repeat split; reflexivity.
Qed.

(** X8: of the packets the demultiplexer takes from [pktIn] (UDP, whose
    handler is not among the sources, left aside), each is counted
    once: a TCP or ICMP packet as accepted, any other as rejected; and
    the ICMP packets, and only they, are injected into the ICMP stack,
    in the order of arrival. *)
Theorem demux_counts_every_packet (n : nat) (now : Z) (pkts : list ipPacket)
    (p : proxy) :
  (forall pkt, pkt ∈ pkts -> ipProto pkt <> IPProtocolUDP) ->
  let p' := snd (fst (copyToUpstream stackEnv live onUDP reapUDP n now
                        (SelPkt <$> pkts) p)) in
  let ok := fun pkt => ipProto pkt = IPProtocolTCP \/ ipProto pkt = IPProtocolICMP in
  acceptedPackets p' = acceptedPackets p + Z.of_nat (length (filter ok pkts)) /\
  rejectedPackets p' =
    rejectedPackets p + Z.of_nat (length (filter (fun pkt => ~ ok pkt) pkts)) /\
  acceptedPackets p' + rejectedPackets p' =
    acceptedPackets p + rejectedPackets p + Z.of_nat (length pkts) /\
  injectedICMP (trace p') =
    injectedICMP (trace p)
      ++ (raw <$> filter (fun pkt => ipProto pkt = IPProtocolICMP) pkts).
Proof.
  intros Hu. cbn zeta.
  rewrite <- (app_nil_r (SelPkt <$> pkts)), copyToUpstream_packets.
  cbn [copyToUpstream fst snd].
  revert p; induction pkts as [|pkt pkts IH]; intros p.
  - cbn. rewrite app_nil_r. repeat split; try reflexivity; lia.
  - match goal with
    | |- context [foldl ?f p (pkt :: pkts)] =>
        change (foldl f p (pkt :: pkts)) with (foldl f (f p pkt) pkts)
    end.
    cbv beta. rewrite !filter_cons.
    destruct (IH (fun q Hq => Hu q (list_elem_of_further _ _ _ Hq))
                 (demux_packet stackEnv onUDP now pkt p)) as (Ha & Hr & Hs & Hi).
    destruct (demux_packet_counts now pkt p (Hu pkt (list_elem_of_here _ _)))
      as (Ha1 & Hr1 & Hi1).
    rewrite Ha, Hr in Hs. rewrite Ha, Hr, Hi, Ha1, Hr1, Hi1.
    clear Ha Hr Hi Ha1 Hr1 Hi1 IH.
    destruct (decide (ipProto pkt = IPProtocolTCP \/ ipProto pkt = IPProtocolICMP))
      as [Hok|Hok].
    + rewrite bool_decide_eq_true_2 by exact Hok.
      destruct (decide (~ (ipProto pkt = IPProtocolTCP \/ ipProto pkt = IPProtocolICMP)))
        as [Hn|_]; [contradiction|].
      destruct (decide (ipProto pkt = IPProtocolICMP)) as [Hi|Hi].
      * rewrite bool_decide_eq_true_2 by exact Hi.
        cbn [length fmap list_fmap]. rewrite <- app_assoc. cbn [app].
        repeat split; try reflexivity; lia.
      * rewrite bool_decide_eq_false_2 by exact Hi.
        cbn [length]. rewrite app_nil_r.
        repeat split; try reflexivity; lia.
    + rewrite bool_decide_eq_false_2 by exact Hok.
      destruct (decide (~ (ipProto pkt = IPProtocolTCP \/ ipProto pkt = IPProtocolICMP)))
        as [_|Hn]; [|contradiction].
      destruct (decide (ipProto pkt = IPProtocolICMP)) as [Hi|Hi]; [tauto|].
      rewrite bool_decide_eq_false_2 by exact Hi.
      cbn [length]. rewrite app_nil_r.
      repeat split; try reflexivity; lia.
Qed.

(** X9: the close signal ends the demultiplexer after the packets that
    were selected before it: the deferred calls run in the reverse of
    the order of their [defer] statements (ticker stop, closeUDP,
    closeTCP, the close of the ICMP stack, closeNow, wg.Done), and
    whatever would fire afterwards is not selected. *)
Theorem copyToUpstream_close_signal (n : nat) (now : Z) (pkts : list ipPacket)
    (rest : list select_case) (p : proxy) :
  let before := snd (fst (copyToUpstream stackEnv live onUDP reapUDP n now
                            (SelPkt <$> pkts) p)) in
  copyToUpstream stackEnv live onUDP reapUDP n now
      ((SelPkt <$> pkts) ++ SelClose :: rest) p =
    (DemuxReturned,
     emit [EvTickerStop; EvCloseUDP; EvCloseTCP; EvICMPStackClose;
           EvCloseNow; EvWgDone] before,
     rest).
Proof.
  cbn zeta.
  rewrite <- (app_nil_r (SelPkt <$> pkts)) at 2.
  rewrite !copyToUpstream_packets. reflexivity.
Qed.

End DemuxCount.

(** A TCP packet, an ICMP packet and one with protocol 99. *)
Lemma demux_counts_every_packet_witness :
  let t := mkPacket 6 (FourTuple (Addr "192.168.0.2" 40000) (Addr "10.0.0.1" 9))
                    [Byte.x01] in
  let i := mkPacket 1 (FourTuple (Addr "192.168.0.2" 0) (Addr "10.0.0.1" 0))
                    [Byte.x02] in
  let u := mkPacket 99 (FourTuple (Addr "192.168.0.2" 0) (Addr "10.0.0.1" 0))
                    [Byte.x03] in
  let p' := snd (fst (copyToUpstream (fun _ _ => None) (fun _ m => m) (fun _ p => p)
                        (fun p => p) 1 0 (SelPkt <$> [t; i; u])
                        (newProxy (ApplyDefaults None)))) in
  acceptedPackets p' = 2 /\ rejectedPackets p' = 1 /\
  injectedICMP (trace p') = [[Byte.x02]].
Proof.
  intros t i u p'.
  destruct (demux_counts_every_packet (fun _ _ => None) (fun _ m => m) (fun _ p => p)
              (fun p => p) 1 0 [t; i; u] (newProxy (ApplyDefaults None)))
    as (Ha & Hr & _ & Hi).
  - intros q Hq.
    apply elem_of_cons in Hq as [->|Hq]; [discriminate|].
    apply elem_of_cons in Hq as [->|Hq]; [discriminate|].
    apply elem_of_cons in Hq as [->|Hq]; [discriminate|].
    apply elem_of_nil in Hq. destruct Hq.
  - exact (conj Ha (conj Hr Hi)).
Defined.

(** ** The reaper: what a pass removes and what it closes *)

Lemma Close_no_go (c : baseConn) : spawned (snd (fst (Close c))) = [].
Proof.
  unfold Close, run_finalizer, baseConn_finalizer, run_innerFinalizer,
    run_callerFinalizer.
  destruct (closeState (conn_closeable c)); try reflexivity;
    destruct (finalizer (conn_closeable c)) as [|[[f|o [f|]]|]];
    destruct (upstream c), (ep c); reflexivity.
Qed.

Section ReaperPass.

Variable live : N -> gmap FullAddress baseConn -> gmap FullAddress baseConn.

Lemma reapTCP_dest_map (now : Z) (p : proxy) (a : addr) (dest : tcpDest) :
  opts (reapTCP_dest live now p (a, dest)) = opts p /\
  tcpConnTrack (reapTCP_dest live now p (a, dest)) =
    if reapable now (IdleTimeout (opts p)) dest then delete a (tcpConnTrack p)
    else tcpConnTrack p.
Proof.
  unfold reapTCP_dest, reapable.
  destruct (0 <? length (snd <$> map_to_list (conns dest)))%nat; cbn [negb andb].
  - split; reflexivity.
  - cbn [opts emit set_trace].
    destruct (timeSinceLastActive now (dest_base dest) >? IdleTimeout (opts p));
      split; reflexivity.
Qed.

Lemma reapTCP_fold_lookup (now : Z) (l : list (addr * tcpDest)) (p : proxy) (k : addr) :
  opts (foldl (reapTCP_dest live now) p l) = opts p /\
  tcpConnTrack (foldl (reapTCP_dest live now) p l) !! k =
    if bool_decide (Exists (fun e => fst e = k /\
                                     reapable now (IdleTimeout (opts p)) (snd e) = true) l)
    then None else tcpConnTrack p !! k.
Proof.
  revert p; induction l as [|[a d] l IH]; intros p; cbn [foldl].
  - split; [reflexivity|].
    rewrite bool_decide_eq_false_2; [reflexivity|]. intros H. inversion H.
  - destruct (IH (reapTCP_dest live now p (a, d))) as [Ho Hl].
    destruct (reapTCP_dest_map now p a d) as [Ho1 Hm1].
    rewrite Ho, Hl, Ho1, Hm1. split; [reflexivity|]. clear IH Ho Hl Ho1 Hm1.
    destruct (decide (Exists (fun e => fst e = k /\
                reapable now (IdleTimeout (opts p)) (snd e) = true) l)) as [Hex|Hex].
    + rewrite !bool_decide_eq_true_2; [reflexivity| |exact Hex].
      apply Exists_cons. right. exact Hex.
    + rewrite (bool_decide_eq_false_2 _ Hex).
      destruct (reapable now (IdleTimeout (opts p)) d) eqn:Hr.
      * destruct (decide (a = k)) as [->|Hak].
        -- rewrite bool_decide_eq_true_2, lookup_delete_eq; [reflexivity|].
           apply Exists_cons. left. split; [reflexivity|exact Hr].
        -- rewrite bool_decide_eq_false_2, lookup_delete_ne; [reflexivity|exact Hak|].
           intros H. apply Exists_cons in H as [[H _]|H]; [exact (Hak H)|exact (Hex H)].
      * rewrite bool_decide_eq_false_2; [reflexivity|].
        intros H. apply Exists_cons in H as [[_ H]|H]; [cbn in H; congruence|exact (Hex H)].
Qed.

(** X10: one pass of the reaper removes from the destination map
    exactly the destinations that have no connection and have been
    idle for longer than the idle timeout; a destination with a
    connection, or active within the timeout, stays, and no
    destination is added or changed. *)
Theorem reapTCP_pass_removes_idle_empty (now : Z) (p : proxy) (k : addr) :
  tcpConnTrack (reapTCP_pass live now p) !! k =
    match tcpConnTrack p !! k with
    | Some dest =>
        if reapable now (IdleTimeout (opts p)) dest then None else Some dest
    | None => None
    end.
Proof.
  unfold reapTCP_pass.
  set (p1 := emit _ p).
  destruct (reapTCP_fold_lookup now (map_to_list (tcpConnTrack p1)) p1 k) as [_ ->].
  change (tcpConnTrack p1) with (tcpConnTrack p). change (opts p1) with (opts p).
  destruct (tcpConnTrack p !! k) as [dest|] eqn:Hk.
  - destruct (reapable now (IdleTimeout (opts p)) dest) eqn:Hr.
    + rewrite bool_decide_eq_true_2; [reflexivity|].
      apply Exists_exists. exists (k, dest).
      split; [apply elem_of_map_to_list; exact Hk|]. split; [reflexivity|exact Hr].
    + rewrite bool_decide_eq_false_2; [reflexivity|].
      intros H. apply Exists_exists in H as ([a d] & Hin & Ha & Hd).
      cbn in Ha, Hd. subst a. apply elem_of_map_to_list in Hin. congruence.
  - rewrite bool_decide_eq_false_2; [reflexivity|].
    intros H. apply Exists_exists in H as ([a d] & Hin & Ha & Hd).
    cbn in Ha. subst a. apply elem_of_map_to_list in Hin. congruence.
Qed.

Lemma reapTCP_dest_spawned (now : Z) (p : proxy) (a : addr) (dest : tcpDest) :
  exists new,
    trace (reapTCP_dest live now p (a, dest)) = trace p ++ new /\
    forall g, g ∈ spawned new -> closes_idle live now p [(a, dest)] g.
Proof.
  unfold reapTCP_dest.
  destruct (0 <? length (snd <$> map_to_list (conns dest)))%nat.
  - eexists. split; [rewrite !trace_emit, <- app_assoc; reflexivity|].
    intros g Hg. cbn [app spawned omap list_omap] in Hg. cbn [opts emit set_trace] in Hg.
    assert (Hsp : forall cs : list baseConn,
              omap (fun e => match e with EvGo g => Some g | _ => None end)
                   ((fun conn => EvGo (GoConnClose (conn_id conn))) <$> cs)
              = (fun conn => GoConnClose (conn_id conn)) <$> cs).
    { induction cs as [|c cs IH]; [reflexivity|]. cbn. f_equal. exact IH. }
    rewrite Hsp in Hg.
    apply list_elem_of_fmap in Hg as (conn & -> & Hc).
    apply list_elem_of_filter in Hc as [Hidle Hin].
    exists (a, dest), conn. split; [left|]. auto.
  - destruct (timeSinceLastActive now (dest_base dest) >? _).
    + eexists. split.
      { rewrite trace_emit. cbn [trace set_tcpConnTrack].
        rewrite !trace_emit, <- !app_assoc. reflexivity. }
      intros g Hg. rewrite spawned_app in Hg. cbn [spawned omap list_omap app] in Hg.
      change (omap _ ?l) with (spawned l) in Hg. rewrite Close_no_go in Hg.
      apply elem_of_nil in Hg. destruct Hg.
    + eexists. split; [rewrite trace_emit; reflexivity|].
      intros g Hg. cbn in Hg. apply elem_of_nil in Hg. destruct Hg.
Qed.

Lemma reapTCP_fold_spawned (now : Z) (l : list (addr * tcpDest)) (p : proxy) :
  exists new,
    trace (foldl (reapTCP_dest live now) p l) = trace p ++ new /\
    forall g, g ∈ spawned new -> closes_idle live now p l g.
Proof.
  revert p; induction l as [|[a d] l IH]; intros p; cbn [foldl].
  - exists []. rewrite app_nil_r. split; [reflexivity|].
    intros g Hg. apply elem_of_nil in Hg. destruct Hg.
  - destruct (IH (reapTCP_dest live now p (a, d))) as (new2 & Htr2 & Hg2).
    destruct (reapTCP_dest_spawned now p a d) as (new1 & Htr1 & Hg1).
    exists (new1 ++ new2). split; [rewrite Htr2, Htr1, app_assoc; reflexivity|].
    intros g Hg. rewrite spawned_app in Hg. apply elem_of_app in Hg as [Hg|Hg].
    + destruct (Hg1 g Hg) as (e & conn & He & Hc & -> & Hidle).
      exists e, conn. apply list_elem_of_singleton in He. subst e.
      split; [left|]. auto.
    + destruct (Hg2 g Hg) as (e & conn & He & Hc & -> & Hidle).
      exists e, conn. split; [right; exact He|].
      rewrite (proj1 (reapTCP_dest_map now p a d)) in Hidle. auto.
Qed.

(** X11: the only goroutines a pass of the reaper starts are closes of
    connections: each one closes a connection that the map of a
    destination of the proxy holds when the reaper ranges over it and
    that has been idle for longer than the idle timeout.  No
    connection that was active within the timeout is closed, and the
    destinations are not closed in a goroutine. *)
Theorem reapTCP_pass_closes_only_idle (now : Z) (p : proxy) :
  exists new,
    trace (reapTCP_pass live now p) = trace p ++ new /\
    forall g, g ∈ spawned new ->
      exists a dest conn,
        tcpConnTrack p !! a = Some dest /\
        conn ∈ (snd <$> map_to_list (live (dest_id dest) (conns dest))) /\
        g = GoConnClose (conn_id conn) /\
        IdleTimeout (opts p) < timeSinceLastActive now conn.
Proof.
  unfold reapTCP_pass. set (p1 := emit _ p).
  destruct (reapTCP_fold_spawned now (map_to_list (tcpConnTrack p1)) p1)
    as (new & Htr & Hg).
  eexists. split; [rewrite Htr; unfold p1; rewrite trace_emit, <- app_assoc; reflexivity|].
  intros g Hin. rewrite spawned_app in Hin. cbn [spawned omap list_omap app] in Hin.
  change (omap _ ?l) with (spawned l) in Hin.
  destruct (Hg g Hin) as ([a d] & conn & He & Hc & -> & Hidle).
  exists a, d, conn. apply elem_of_map_to_list in He. auto.
Qed.

End ReaperPass.

(** ** The pumps *)

Lemma writeToDownstream_completes (script : list write_result)
    (b : list Byte.byte) :
  completes script (length b) = true ->
  w_outcome (writeToDownstream script b) = WReturned None /\
  w_delivered (writeToDownstream script b) = b.
Proof.
  intros H. pose proof (writeLoop_invariant script b 0) as Hinv.
  unfold write_invariant in Hinv. unfold writeToDownstream.
  rewrite (completes_returns script b 0 H) in *. split; [reflexivity|exact Hinv].
Qed.

(** X12: the pump from the upstream to the endpoint, with an MTU of at
    least 40: as long as reads return bytes and the endpoint ends up
    taking them, the bytes reach the endpoint complete and in the order
    read, and the connection is marked active after each chunk; the
    read error that follows ends the pump and runs the deferred close.
    End of stream, and an error whose text contains "use of closed
    network connection", are not logged; any other error is logged
    once. *)
Theorem copyFromUpstream_forwards_in_order (mtu : Z)
    (good : list (list Byte.byte * list write_result * Z)) (final : up_read)
    (writes : list write_result) (now : Z) (rest : list from_round)
    (conn : baseConn) :
  tcpipHeaderBytes <= mtu ->
  Forall (fun g => completes (snd (fst g)) (length (fst (fst g))) = true) good ->
  (forall bytes, final <> UpData bytes) ->
  let run := copyFromUpstream mtu
               ((data_round <$> good) ++ mkFromRound final writes now :: rest) conn in
  pump_end run = PumpReturned /\
  pump_closed run = true /\
  pump_out run = good ≫= (fun g => fst (fst g)) /\
  lastActive (pump_conn run) = foldl (fun _ g => snd g) (lastActive conn) good /\
  pump_log run =
    match final with
    | UpErr msg =>
        if strings_Contains msg "use of closed network connection" then []
        else ["Unexpected error reading from upstream: %v"]
    | _ => []
    end.
Proof.
  intros Hmtu Hgood Hfinal. cbn zeta. unfold copyFromUpstream.
  destruct (Z.ltb_spec (mtu - tcpipHeaderBytes) 0) as [Hlt|_]; [lia|].
  clear Hmtu. revert conn.
  induction Hgood as [|[[bytes ws] t] good Hc _ IH]; intros conn.
  - cbn [fmap list_fmap app copyFromUpstream_loop fr_read].
    destruct final as [bytes| |msg].
    + exfalso. exact (Hfinal bytes eq_refl).
    + repeat split; reflexivity.
    + destruct (strings_Contains msg _); repeat split; reflexivity.
  - cbn [fmap list_fmap app copyFromUpstream_loop data_round fr_read fr_writes
         fr_now fst snd] in *.
    destruct (writeToDownstream_completes ws bytes Hc) as [Ho Hd].
    rewrite Ho. cbn [pump_end pump_closed pump_out pump_conn pump_log].
    destruct (IH (markActive t conn)) as (He & Hcl & Hout & Hla & Hlog).
    rewrite He, Hcl, Hout, Hla, Hlog, Hd.
    repeat split; reflexivity.
Qed.

(** Two chunks, the second taken in two writes after a WouldBlock, then
    the end of the stream. *)
Lemma copyFromUpstream_forwards_in_order_witness :
  let conn := fst (newBaseConn 0 11 (Some (mkUpstream 21 None)) None) in
  let good := [([Byte.x01; Byte.x02], [WriteOk 2], 5);
               ([Byte.x03; Byte.x04], [WriteErr ErrWouldBlock; WriteOk 1; WriteOk 1], 7)] in
  let run := copyFromUpstream 1500
               ((data_round <$> good) ++ [mkFromRound UpEOF [] 9]) conn in
  pump_end run = PumpReturned /\
  pump_out run = [Byte.x01; Byte.x02; Byte.x03; Byte.x04] /\
  lastActive (pump_conn run) = 7 /\
  pump_log run = [].
Proof.
  intros conn good run.
  destruct (copyFromUpstream_forwards_in_order 1500 good UpEOF [] 9 [] conn)
    as (He & _ & Ho & Hl & Hlog).
  - vm_compute. discriminate.
  - repeat constructor.
  - discriminate.
  - exact (conj He (conj Ho (conj Hl Hlog))).
Defined.

(** X13: an MTU between 1 and 39 is kept by [ApplyDefaults], and with
    it the pump from the upstream panics when it makes its first
    buffer, whatever the upstream and the endpoint would answer: nothing
    is read or delivered, and only the deferred close runs. *)
Theorem copyFromUpstream_small_mtu_panics (o : Opts) (script : list from_round)
    (conn : baseConn) :
  0 < MTU o < tcpipHeaderBytes ->
  MTU (ApplyDefaults (Some o)) = MTU o /\
  copyFromUpstream (MTU (ApplyDefaults (Some o))) script conn =
    mkPumpRun PumpPanicked conn [] [] [] true.
Proof.
  intros [H0 H40].
  assert (Hm : MTU (ApplyDefaults (Some o)) = MTU o).
  { destruct o as [m b i t s dt du]. cbn in *.
    destruct (Z.leb_spec0 m 0); [lia|reflexivity]. }
  split; [exact Hm|]. rewrite Hm. unfold copyFromUpstream.
  destruct (Z.ltb_spec (MTU o - tcpipHeaderBytes) 0); [reflexivity|lia].
Qed.

(** An MTU of 20. *)
Lemma copyFromUpstream_small_mtu_panics_witness :
  let o := mkOpts 20 0 0 0 0 None None in
  let conn := fst (newBaseConn 0 11 (Some (mkUpstream 21 None)) None) in
  copyFromUpstream (MTU (ApplyDefaults (Some o)))
    [mkFromRound (UpData [Byte.x01]) [WriteOk 1] 5] conn =
    mkPumpRun PumpPanicked conn [] [] [] true.
Proof.
  intros o conn.
  refine (proj2 (copyFromUpstream_small_mtu_panics o
                   [mkFromRound (UpData [Byte.x01]) [WriteOk 1] 5] conn _)).
  vm_compute. split; reflexivity.
Defined.

Lemma copyToUpstream_conn_going (gs : list (option (list Byte.byte * Z)))
    (tail : list to_round) (conn : baseConn) :
  let conn' := foldl (fun c g => match g with
                                 | None => c
                                 | Some (_, now) => markActive now c
                                 end) conn gs in
  let run := copyToUpstream_conn tail conn' in
  copyToUpstream_conn ((going_round <$> gs) ++ tail) conn =
    mkPumpRun (pump_end run) (pump_conn run) (going_bytes gs ++ pump_out run)
      (pump_slept run) (pump_log run) (pump_closed run).
Proof.
  cbn zeta. revert conn; induction gs as [|[[buf now]|] gs IH]; intros conn.
  - cbn. destruct (copyToUpstream_conn tail conn). reflexivity.
  - cbn [fmap list_fmap app going_round copyToUpstream_conn tr_read tr_write_fails
         tr_closed tr_now foldl].
    rewrite IH. cbn [pump_end pump_conn pump_out pump_slept pump_log pump_closed].
    unfold going_bytes. cbn [mbind list_bind]. rewrite <- app_assoc. reflexivity.
  - cbn [fmap list_fmap app going_round copyToUpstream_conn tr_read foldl].
    destruct (decide (ErrWouldBlock = ErrWouldBlock)) as [_|Hne]; [|congruence].
    rewrite IH. reflexivity.
Qed.

(** X14: the pump from the endpoint to the upstream hands every buffer
    it reads to the upstream, whole and in the order read, wake-ups by
    the notifier in between changing nothing.  It ends, with the
    deferred [closeNow], when the read would block and the close signal
    arrives while it waits, and then logs nothing; and when the read
    fails with an error other than WouldBlock: such an error whose text
    contains "endpoint is closed for receive" is not logged, any other
    is logged once.  The rounds after the one that ends it are not
    looked at. *)
Theorem copyToUpstream_conn_forwards_in_order
    (gs : list (option (list Byte.byte * Z))) (rest : list to_round)
    (conn : baseConn) (e : tcpip_error) (first fails closed : bool) (now : Z) :
  e <> ErrWouldBlock ->
  let stopped := copyToUpstream_conn
                   ((going_round <$> gs)
                      ++ mkToRound (EpErr ErrWouldBlock true) fails now closed :: rest)
                   conn in
  let failed := copyToUpstream_conn
                  ((going_round <$> gs)
                     ++ mkToRound (EpErr e first) fails now closed :: rest)
                  conn in
  pump_end stopped = PumpReturned /\ pump_closed stopped = true /\
  pump_out stopped = going_bytes gs /\ pump_log stopped = [] /\
  pump_end failed = PumpReturned /\ pump_closed failed = true /\
  pump_out failed = going_bytes gs /\
  pump_log failed =
    (if strings_Contains (tcpip_error_String e) "endpoint is closed for receive"
     then [] else ["Unexpected error reading from downstream: %v"]) /\
  (e = ErrClosedForReceive -> pump_log failed = []).
Proof.
  intros He. cbn zeta. rewrite !copyToUpstream_conn_going.
  cbn [copyToUpstream_conn tr_read].
  destruct (decide (ErrWouldBlock = ErrWouldBlock)) as [_|Hne]; [|congruence].
  destruct (decide (e = ErrWouldBlock)) as [|_]; [contradiction|].
  cbn [pump_end pump_conn pump_out pump_slept pump_log pump_closed].
  rewrite !app_nil_r.
  destruct (strings_Contains (tcpip_error_String e) _) eqn:Hc;
    repeat split; try reflexivity.
  intros ->. vm_compute in Hc. discriminate.
Qed.

(** A wake-up, a buffer, then a closed endpoint. *)
Lemma copyToUpstream_conn_forwards_in_order_witness :
  let conn := fst (newBaseConn 0 11 (Some (mkUpstream 21 None)) None) in
  let failed := copyToUpstream_conn
                  ((going_round <$> [None; Some ([Byte.x01; Byte.x02], 5)])
                     ++ [mkToRound (EpErr ErrClosedForReceive false) false 6 false])
                  conn in
  pump_out failed = [Byte.x01; Byte.x02] /\ pump_log failed = [].
Proof.
  intros conn failed.
  destruct (copyToUpstream_conn_forwards_in_order
              [None; Some ([Byte.x01; Byte.x02], 5)] [] conn ErrClosedForReceive
              false false false 6) as (_ & _ & _ & _ & _ & _ & Ho & _ & Hl).
  - discriminate.
  - exact (conj Ho (Hl eq_refl)).
Defined.

(** X15: the last buffer of the pump to the upstream.  When the write
    to the upstream fails, the pump logs it once and ends without
    marking the connection active for that buffer; when the write
    succeeds and the close signal is found afterwards, it ends without
    a log line, the connection marked active.  In both cases the buffer
    was handed to the upstream after all earlier ones. *)
Theorem copyToUpstream_conn_last_buffer
    (gs : list (option (list Byte.byte * Z))) (rest : list to_round)
    (conn : baseConn) (buf : list Byte.byte) (now : Z) (closed : bool) :
  let before := foldl (fun c g => match g with
                                  | None => c
                                  | Some (_, t) => markActive t c
                                  end) conn gs in
  let failed := copyToUpstream_conn
                  ((going_round <$> gs) ++ mkToRound (EpData buf) true now closed :: rest)
                  conn in
  let stopped := copyToUpstream_conn
                   ((going_round <$> gs) ++ mkToRound (EpData buf) false now true :: rest)
                   conn in
  failed = mkPumpRun PumpReturned before (going_bytes gs ++ buf) []
             ["Unexpected error writing to upstream: %v"] true /\
  stopped = mkPumpRun PumpReturned (markActive now before) (going_bytes gs ++ buf) []
              [] true.
Proof.
  cbn zeta. rewrite !copyToUpstream_conn_going. split; reflexivity.
Qed.

(** ** The downstream fan-in *)

(** X16: the fan-in writes each packet it receives as header followed
    by data, whole (a packet longer than the MTU is not cut), in the
    order received.  The close signal ends it silently; the first
    failing write ends it with one error line.  Either way the deferred
    [Close] runs and nothing that arrives later is written. *)
Theorem copyFromUpstream_proxy_writes_in_order (pkts : list PacketInfo)
    (last : PacketInfo) (rest : list fanin_case) :
  let sent := (fun i => FanPacket i false) <$> pkts in
  let whole := fun i => pkt_header i ++ pkt_data i in
  copyFromUpstream_proxy sent = mkFaninRun PumpBlocked (whole <$> pkts) [] false /\
  copyFromUpstream_proxy (sent ++ FanClosed :: rest) =
    mkFaninRun PumpReturned (whole <$> pkts) [] true /\
  copyFromUpstream_proxy (sent ++ FanPacket last true :: rest) =
    mkFaninRun PumpReturned ((whole <$> pkts) ++ [whole last])
      ["Unexpected error writing to downstream: %v"] true.
Proof.
  cbn zeta. induction pkts as [|i pkts (IH1 & IH2 & IH3)].
  - repeat split; reflexivity.
  - cbn [fmap list_fmap app copyFromUpstream_proxy].
    rewrite IH1, IH2, IH3. repeat split; reflexivity.
Qed.

(** X17: the drain of an origin passes the packets of its channel
    endpoint on to the fan-in in the order received, until it sees the
    origin closed; a packet it holds at that moment is dropped, and
    nothing that arrives later is passed on. *)
Theorem copyToDownstream_forwards_until_closed (pkts : list PacketInfo)
    (held : PacketInfo) (rest : list drain_case) :
  copyToDownstream (DrainSent <$> pkts) = (PumpBlocked, pkts) /\
  copyToDownstream ((DrainSent <$> pkts) ++ DrainClosed :: rest)
    = (PumpReturned, pkts) /\
  copyToDownstream ((DrainSent <$> pkts) ++ DrainClosedHolding held :: rest)
    = (PumpReturned, pkts).
Proof.
  induction pkts as [|i pkts (IH1 & IH2 & IH3)].
  - repeat split; reflexivity.
  - cbn [fmap list_fmap app copyToDownstream].
    rewrite IH1, IH2, IH3. repeat split; reflexivity.
Qed.

(** ** origin: init, finalization and the clients *)

(** X18: [init] returns nil exactly when no stack call fails.  The
    endpoint is assigned as soon as [NewEndpoint] succeeds, so an
    origin whose [Bind] failed still closes its endpoint when it is
    finalized, as one that was fully set up does; an origin whose
    [init] failed earlier has no endpoint to close.  The other
    finalization steps run in every case. *)
Theorem init_then_finalize (now : Z) (id endpoint : N) (a : addr)
    (up : option upstreamConn) (fin : option callerFinalizer)
    (failure : option init_failure) :
  let o := fst (newOrigin now id a up fin) in
  let o' := fst (init failure endpoint o) in
  (snd (init failure endpoint o) = None <-> failure = None) /\
  fst (run_finalizer (o_base o')) =
    [EvStackClose id]
      ++ (EvCallerFinalizer <$> option_list (fin_tag <$> fin))
      ++ [EvDrain id]
      ++ (EvUpstreamClose <$> option_list (up_id <$> up))
      ++ [EvEventUnregister id]
      ++ (match failure with
          | None | Some InitBind => [EvEndpointClose endpoint]
          | _ => []
          end).
Proof.
  cbn zeta. split.
  - destruct failure as [[]|]; cbn; split; congruence.
  - destruct failure as [[]|], fin as [[tag ret]|], up as [[u ue]|]; reflexivity.
Qed.

(** X19: the clients of an origin: a client added under an address is
    found there, and the other addresses are not touched; adding under
    a new address raises the count by one, adding under a used one
    replaces the client and keeps the count; removing what was added
    under a new address gives the origin back, and removing an address
    that is not there changes nothing. *)
Theorem origin_clients_round_trip (a : FullAddress) (client : baseConn) (o : origin) :
  o_clients (addClient a client o) !! a = Some client /\
  (forall a', a' <> a -> o_clients (addClient a client o) !! a' = o_clients o !! a') /\
  (o_clients o !! a = None ->
     numClients (addClient a client o) = S (numClients o) /\
     removeClient a (addClient a client o) = o /\
     removeClient a o = o) /\
  (is_Some (o_clients o !! a) ->
     numClients (addClient a client o) = numClients o /\
     numClients (removeClient a o) = pred (numClients o)) /\
  o_clients (removeClient a o) !! a = None.
Proof.
  destruct o as [b ad m]. unfold addClient, removeClient, numClients, set_o_clients.
  cbn [o_clients o_base o_addr].
  split; [apply lookup_insert_eq|].
  split; [intros a' Hne; apply lookup_insert_ne; congruence|].
  split.
  { intros Hnone. split; [apply map_size_insert_None; exact Hnone|].
    split; f_equal; [apply delete_insert_id|apply delete_id]; exact Hnone. }
  split; [|apply lookup_delete_eq].
  intros Hsome. split; [apply map_size_insert_Some|apply map_size_delete_Some]; exact Hsome.
Qed.

(** An origin with one client, and a second address. *)
Lemma origin_clients_round_trip_witness :
  let c := fst (newBaseConn 0 11 None None) in
  let a1 := mkFullAddress 1 "192.168.0.2" 40000 in
  let a2 := mkFullAddress 1 "192.168.0.2" 40001 in
  let o := addClient a1 c (fst (newOrigin 0 1 (Addr "10.0.0.1" 9) None None)) in
  numClients (addClient a2 c o) = S (numClients o) /\
  removeClient a2 (addClient a2 c o) = o /\
  numClients (addClient a1 c o) = numClients o.
Proof.
  intros c a1 a2 o.
  destruct (origin_clients_round_trip a2 c o) as (_ & _ & Hnew & _ & _).
  destruct (origin_clients_round_trip a1 c o) as (_ & _ & _ & Hused & _).
  destruct Hnew as (Hn & Hr & _); [vm_compute; reflexivity|].
  destruct Hused as (Hu & _); [vm_compute; eexists; reflexivity|].
  exact (conj Hn (conj Hr Hu)).
Defined.

(** ** Accepted flows and their removal *)

(** X20: a flow accepted from a remote address that the destination
    does not know yet is installed under that address and raises the
    count of connections by one; its connection has the dialed
    upstream and the accepted endpoint, and its finalizer runs the
    removal, closes the upstream, unregisters and closes the endpoint,
    in this order.  [removeConn] for that address gives the destination
    back as it was. *)
Theorem accept_then_removeConn (now : Z) (f : flow) (dest : tcpDest) :
  conns dest !! snd (fst f) = None ->
  let dest' := snd (fst (accept now [flow_round f] dest)) in
  conns dest' !! snd (fst f) = Some (flow_conn now f) /\
  numConns dest' = S (numConns dest) /\
  upstream (flow_conn now f) = Some (snd f) /\
  ep (flow_conn now f) = Some (fst (fst f)) /\
  lastActive (flow_conn now f) = now /\
  fst (run_finalizer (flow_conn now f)) =
    [EvCallerFinalizer (fst (fst f)); EvUpstreamClose (up_id (snd f));
     EvEventUnregister (fst (fst f)); EvEndpointClose (fst (fst f))] /\
  removeConn (snd (fst f)) dest' = dest /\
  numConns (removeConn (snd (fst f)) dest') = numConns dest.
Proof.
  intros Hnone. destruct f as [[e ra] up]. destruct dest as [b ad m].
  cbn [fst snd] in *. cbn [conns] in Hnone.
  cbn [accept flow_round fst snd newBaseConn].
  unfold numConns, removeConn, set_conns, flow_conn.
  cbn [conns dest_base dest_addr fst snd newBaseConn].
  split; [apply lookup_insert_eq|].
  split; [apply map_size_insert_None; exact Hnone|].
  do 4 (split; [reflexivity|]).
  rewrite delete_insert_id by exact Hnone. split; reflexivity.
Qed.

(** A destination without connections and one flow. *)
Lemma accept_then_removeConn_witness :
  let dest := mkTcpDest (mkBaseConn 1 0 None (Some 1%N)
                           (mkCloseable Open (FinBaseConn None) None))
                        "10.0.0.1:9" ∅ in
  let f : flow := (11%N, mkFullAddress 1 "192.168.0.2" 40000, mkUpstream 21 None) in
  numConns (snd (fst (accept 100 [flow_round f] dest))) = 1%nat /\
  removeConn (mkFullAddress 1 "192.168.0.2" 40000)
             (snd (fst (accept 100 [flow_round f] dest))) = dest.
Proof.
  intros dest f.
  destruct (accept_then_removeConn 100 f dest eq_refl)
    as (_ & Hn & _ & _ & _ & _ & Hr & _).
  exact (conj Hn Hr).
Defined.

(** ** Serve *)

(** X21: when the ICMP stack cannot be set up, [Serve] closes that
    stack and returns the wrapped error at once: it starts no goroutine
    and reads nothing, whatever the downstream holds.  Otherwise it
    starts the ICMP drain, the statistics, the fan-in and the
    demultiplexer and runs the carrier reader: frames for which
    [pktIn] has room are queued for the demultiplexer in order, and at
    the end of the stream [Serve] returns the EOF error itself once the
    demultiplexer has ended, and stays in the deferred [wg.Wait()] as
    long as it has not. *)
Theorem Serve_setup_failure_or_read (parseIPPacket : list Byte.byte -> option ipPacket)
    (f : icmp_failure) (demux : demux_state) (script rest : list carrier_round)
    (frames : list (list Byte.byte)) (p : proxy) :
  (exists fmt cause,
     Serve parseIPPacket (Some f) demux script p =
       (ReaderReturned (Wrapped fmt cause), p, [SvStackClose])) /\
  ((length (pktIn p) + length (omap parseIPPacket frames) <= pktInCapacity)%nat ->
   let run := Serve parseIPPacket None demux
                ((frame_round <$> frames) ++ mkCarrierRound (ReadErr io_EOF) 0 :: rest)
                p in
   fst (fst run) =
     match demux with
     | DemuxReturned => ReaderReturned io_EOF
     | _ => ReaderWaiting io_EOF
     end /\
   snd run = [SvGoICMPDrain; SvGoTrackStats; SvGoCopyFromUpstream; SvGoCopyToUpstream] /\
   pktIn (snd (fst run)) = pktIn p ++ omap parseIPPacket frames).
Proof.
  split.
  - destruct f; cbn; eauto.
  - intros Hcap. cbn zeta.
    destruct (readLoop_frames parseIPPacket frames p Hcap) as (Hs & Hq & _).
    unfold Serve, readDownstreamPackets. cbn [stackForICMP].
    rewrite (readLoop_app parseIPPacket _ _ _ Hs).
    cbn [readLoop cr_read cr_received].
    destruct (decide (io_EOF = io_EOF)) as [_|Hne]; [|congruence].
    change (drop 0 ?l) with l.
    destruct demux; cbn [fst snd app pktIn emit set_trace set_pktIn];
      (split; [reflexivity|]); (split; [reflexivity|]); exact Hq.
Qed.

(** Two frames on a fresh proxy, then the end of the stream, with the
    demultiplexer still at its select. *)
Lemma Serve_setup_failure_or_read_witness :
  let parse := fun b : list Byte.byte =>
                 Some (mkPacket 6 (FourTuple (Addr "192.168.0.2" 40000)
                                             (Addr "10.0.0.1" 9)) b) in
  let run := Serve parse None DemuxSelecting
               ((frame_round <$> [[Byte.x45]; [Byte.x46]])
                  ++ [mkCarrierRound (ReadErr io_EOF) 0])
               (newProxy (ApplyDefaults None)) in
  fst (fst run) = ReaderWaiting io_EOF /\
  length (pktIn (snd (fst run))) = 2%nat.
Proof.
  intros parse run.
  destruct (Serve_setup_failure_or_read parse IcmpCreateNIC DemuxSelecting [] []
              [[Byte.x45]; [Byte.x46]] (newProxy (ApplyDefaults None)))
    as (_ & Hrun).
  destruct Hrun as (Hs & _ & Hq); [vm_compute; lia|].
  split; [exact Hs|]. unfold run. rewrite Hq. reflexivity.
Defined.


(** Four bytes, two of them taken before the endpoint blocks. *)
Lemma writeLoop_delivers_prefix_witness :
  exists rest,
    w_delivered (writeLoop [WriteOk 2; WriteErr ErrWouldBlock]
                           [Byte.x01; Byte.x02; Byte.x03; Byte.x04] 0) ++ rest
      = [Byte.x01; Byte.x02; Byte.x03; Byte.x04] /\
    rest = [Byte.x03; Byte.x04].
Proof.
  destruct (writeLoop_delivers_prefix [WriteOk 2; WriteErr ErrWouldBlock]
              [Byte.x01; Byte.x02; Byte.x03; Byte.x04] 0) as (rest & Hd & Hrun & _).
  exists rest. split; [exact Hd|]. exact (Hrun _ _ eq_refl).
Defined.

(** A destination with one connection idle for 100 s: the pass closes
    it, and it is a connection of that destination. *)
Lemma reapTCP_pass_closes_only_idle_witness :
  let k := Addr "10.0.0.1" 9 in
  let a1 := mkFullAddress 1 "192.168.0.2" 40000 in
  let c1 := mkBaseConn 11 0 (Some (mkUpstream 21 None)) (Some 11%N)
              (mkCloseable Open
                 (FinBaseConn (Some (FinCaller (mkCallerFinalizer 11 None)))) None) in
  let base := mkBaseConn 1 0 None (Some 1%N) (mkCloseable Open (FinBaseConn None) None) in
  let busy := mkTcpDest base "10.0.0.1:9" {[ a1 := c1 ]} in
  let p := set_tcpConnTrack {[ k := busy ]} (newProxy (ApplyDefaults None)) in
  exists a dest conn,
    tcpConnTrack p !! a = Some dest /\
    GoConnClose 11 = GoConnClose (conn_id conn) /\
    IdleTimeout (opts p) < timeSinceLastActive (100 * Second) conn.
Proof.
  intros k a1 c1 base busy p.
  destruct (reapTCP_pass_closes_only_idle (fun _ m => m) (100 * Second) p)
    as (new & Htr & Hg).
  assert (Hnew : new = trace (reapTCP_pass (fun _ m => m) (100 * Second) p))
    by (rewrite Htr; reflexivity).
  destruct (Hg (GoConnClose 11)) as (a & dest & conn & Hk & _ & Hc & Hidle).
  - rewrite Hnew. vm_compute. apply list_elem_of_here.
  - exists a, dest, conn. exact (conj Hk (conj Hc Hidle)).
Defined.
